(** * Observable extraction: a shallow embedding of
      DataProcessing/ComputeObservables.py

    The two functions of the module, [ComputeObservedLight] and
    [ComputeObservedCharge], are embedded as state-passing programs over an
    explicit random generator; Python exceptions are an error result.
    Real-valued data are IEEE binary64 numbers (the kernel's primitive
    floats), so that 0/0, NaN propagation and comparisons behave as they do
    in numpy. *)

From Stdlib Require Import ZArith List Bool Lia String.
From Stdlib Require Import Floats.
Import ListNotations.

Local Open Scope Z_scope.

#[local] Set Warnings "-inexact-float".

(** ** Python outcomes *)

(** The exceptions the module can raise. *)
Inductive exn : Type :=
| NameError    (* a name bound neither locally, in the module nor in builtins *)
| IndexError   (* an index past the end of an array *)
| ValueError   (* the truth value of an array with more than one element;
                  a negative count or rate given to a sampler *)
| TypeError.   (* a ufunc applied to a dtype it is not defined for *)

Inductive Result (A : Type) : Type :=
| Ok (a : A)
| Raise (e : exn).
Arguments Ok {A} a.
Arguments Raise {A} e.

Definition is_ok {A} (r : Result A) : bool :=
  match r with Ok _ => true | Raise _ => false end.

(** ** numpy primitives on arrays (lists) *)

(** [a[i]] for [0 <= i]: IndexError past the end. *)
Definition getitem {A} (a : list A) (i : nat) : Result A :=
  match nth_error a i with
  | Some x => Ok x
  | None => Raise IndexError
  end.

(** Elementwise binary operation on two arrays of the same length. *)
Fixpoint map2 {A B C} (f : A -> B -> C) (a : list A) (b : list B) : list C :=
  match a, b with
  | x :: a', y :: b' => f x y :: map2 f a' b'
  | _, _ => []
  end.

(** [np.sum] of a float array: the reduction starts from the additive
    identity, so the empty array sums to 0.0.  numpy accumulates arrays of
    eight or more elements in several lanes; the order of additions, and so
    the rounding, can then differ from this left-to-right sum. *)
Definition np_sum (a : list float) : float :=
  fold_left PrimFloat.add a 0%float.

(** [np.sum] of a boolean array: the number of True entries. *)
Definition np_count (m : list bool) : Z :=
  fold_left (fun n (b : bool) => if b then n + 1 else n) m 0.

(** [a[mask]]: the entries of [a] where the boolean mask is True. *)
Fixpoint select {A} (a : list A) (mask : list bool) : list A :=
  match a, mask with
  | x :: a', b :: mask' => if b then x :: select a' mask' else select a' mask'
  | _, _ => []
  end.

(** [np.invert(np.array(l))] for a Python list [l] of booleans.  The empty
    list converts to an array of dtype float64, on which [invert] is not
    defined. *)
Definition np_invert_list (l : list bool) : Result (list bool) :=
  match l with
  | [] => Raise TypeError
  | _ => Ok (map negb l)
  end.

(** ** Data model *)

(** A noise tag as read from the input: a scalar, or an array of values. *)
Inductive NoiseTag : Type :=
| TagScalar (v : Z)
| TagArray (vs : list Z).

(** [bool(np.array(tag))]: a scalar (0-d array) or a one-element array has
    the truth value of its element; an array with more than one element has
    no truth value (ValueError).  The empty array is False in the numpy 1.x
    releases (with a deprecation warning). *)
Definition truth (tag : NoiseTag) : Result bool :=
  match tag with
  | TagScalar v => Ok (negb (v =? 0))
  | TagArray [] => Ok false
  | TagArray [v] => Ok (negb (v =? 0))
  | TagArray (_ :: _ :: _) => Raise ValueError
  end.

(** One row of [dfelec]: the six per-channel arrays of an event. *)
Record Row : Type := {
  fChannelCharge : list float;
  fChannelTime : list float;
  fXPosition : list float;
  fYPosition : list float;
  fChannelNoiseTag : list NoiseTag;
  fChannelLocalId : list Z
}.

(** The per-event Python lists filled by the channel loop. *)
Record ChannelLists : Type := {
  is_noise_channel : list bool;
  drift_times : list float;
  x_positions : list float;
  y_positions : list float;
  x_weights : list float;
  y_weights : list float;
  charge_weights : list float;
  is_x_channel : list bool
}.

Definition empty_lists : ChannelLists :=
  {| is_noise_channel := []; drift_times := []; x_positions := [];
     y_positions := []; x_weights := []; y_weights := [];
     charge_weights := []; is_x_channel := [] |}.

(** The value appended for one event to each of the thirteen output lists. *)
Record EventObs : Type := {
  o_num_channels_in_evt : Z;
  o_evt_charge_including_noise : float;
  o_evt_charge_excluding_noise : float;
  o_evt_charge_above_threshold : float;
  o_num_channels_above_threshold : Z;
  o_num_channels_excluding_noise : Z;
  o_num_channels_collection : Z;
  o_num_collection_below_threshold : Z;
  o_num_channels_induction : Z;
  o_weighted_radius : float;
  o_weighted_drift : float;
  o_num_channels_nonzero_charge_with_noise : Z;
  o_num_channels_nonzero_charge_excluding_noise : Z
}.

(** [output_dict]: thirteen arrays, one entry per event. *)
Record OutputDict : Type := {
  num_channels_in_evt : list Z;
  evt_charge_including_noise : list float;
  evt_charge_excluding_noise : list float;
  evt_charge_above_threshold : list float;
  num_channels_above_threshold : list Z;
  num_channels_excluding_noise : list Z;
  num_channels_collection : list Z;
  num_collection_below_threshold : list Z;
  num_channels_induction : list Z;
  weighted_radius : list float;
  weighted_drift : list float;
  num_channels_nonzero_charge_with_noise : list Z;
  num_channels_nonzero_charge_excluding_noise : list Z
}.

Definition empty_output : OutputDict :=
  {| num_channels_in_evt := []; evt_charge_including_noise := [];
     evt_charge_excluding_noise := []; evt_charge_above_threshold := [];
     num_channels_above_threshold := []; num_channels_excluding_noise := [];
     num_channels_collection := []; num_collection_below_threshold := [];
     num_channels_induction := []; weighted_radius := [];
     weighted_drift := []; num_channels_nonzero_charge_with_noise := [];
     num_channels_nonzero_charge_excluding_noise := [] |}.

(** The thirteen [append] calls of one loop iteration. *)
Definition append_event (d : OutputDict) (o : EventObs) : OutputDict :=
  {| num_channels_in_evt := num_channels_in_evt d ++ [o_num_channels_in_evt o];
     evt_charge_including_noise :=
       evt_charge_including_noise d ++ [o_evt_charge_including_noise o];
     evt_charge_excluding_noise :=
       evt_charge_excluding_noise d ++ [o_evt_charge_excluding_noise o];
     evt_charge_above_threshold :=
       evt_charge_above_threshold d ++ [o_evt_charge_above_threshold o];
     num_channels_above_threshold :=
       num_channels_above_threshold d ++ [o_num_channels_above_threshold o];
     num_channels_excluding_noise :=
       num_channels_excluding_noise d ++ [o_num_channels_excluding_noise o];
     num_channels_collection :=
       num_channels_collection d ++ [o_num_channels_collection o];
     num_collection_below_threshold :=
       num_collection_below_threshold d ++ [o_num_collection_below_threshold o];
     num_channels_induction :=
       num_channels_induction d ++ [o_num_channels_induction o];
     weighted_radius := weighted_radius d ++ [o_weighted_radius o];
     weighted_drift := weighted_drift d ++ [o_weighted_drift o];
     num_channels_nonzero_charge_with_noise :=
       num_channels_nonzero_charge_with_noise d
         ++ [o_num_channels_nonzero_charge_with_noise o];
     num_channels_nonzero_charge_excluding_noise :=
       num_channels_nonzero_charge_excluding_noise d
         ++ [o_num_channels_nonzero_charge_excluding_noise o] |}.

(** ** Names visible in the module *)

(** The module imports [numpy as np] and [pandas as pd] and defines the two
    functions; these are all its global names. *)
Definition module_globals : list string :=
  ["np"; "pd"; "ComputeObservedLight"; "ComputeObservedCharge"]%string.

(** Resolution of a name that is not local to the function and is not a
    builtin: a module global, or NameError. *)
Definition load_global (name : string) : Result unit :=
  if existsb (String.eqb name) module_globals then Ok tt else Raise NameError.

(** int64 wrap-around of numpy integer arrays. *)
Definition wrap64 (z : Z) : Z :=
  (z + 2 ^ 63) mod 2 ^ 64 - 2 ^ 63.

(** Conversion of an int64 to float64 (round to nearest). *)
Definition float_of_int64 (z : Z) : float :=
  if z =? - 2 ^ 63 then (- Z.ldexp 1 63)%float
  else if z <? 0 then (- PrimFloat.of_uint63 (Uint63.of_Z (- z)))%float
  else PrimFloat.of_uint63 (Uint63.of_Z z).

(** Fixed strip geometry of a channel, chosen by its local id. *)
Record Strip : Type := {
  strip_width : float;
  strip_height : float;
  xoffset : float;
  yoffset : float
}.

(** ** A scripted random generator

    A generator whose draws are read off two tapes: standard normal
    deviates for [normal], and raw counts for [binomial] and [poisson].
    It serves to run the programs on concrete draws. *)
Record Tape : Type := {
  gauss_tape : list float;
  count_tape : list Z
}.

Definition tape_normal (loc scale : float) (s : Tape) : float * Tape :=
  match gauss_tape s with
  | z :: zs => ((loc + scale * z)%float,
                {| gauss_tape := zs; count_tape := count_tape s |})
  | [] => (loc, s)
  end.

Definition tape_binomial (n : Z) (p : float) (s : Tape) : Z * Tape :=
  match count_tape s with
  | k :: ks => (Z.max 0 (Z.min n k),
                {| gauss_tape := gauss_tape s; count_tape := ks |})
  | [] => (0, s)
  end.

Definition tape_poisson (lam : float) (s : Tape) : Z * Tape :=
  match count_tape s with
  | k :: ks => ((if (lam =? 0)%float then 0 else Z.abs k),
                {| gauss_tape := gauss_tape s; count_tape := ks |})
  | [] => (0, s)
  end.








(** A binary64 number, in the specification format, that does not compare
    below zero: not a negative finite number and not minus infinity. *)
Definition not_negative (x : spec_float) : Prop :=
  match x with
  | S754_finite true _ _ | S754_infinity true => False
  | _ => True
  end.

(** ** Reading the input arrays *)

(** The noise flag of a tag whose truth value exists. *)
Definition noisy (tag : NoiseTag) : bool :=
  match truth tag with
  | Ok b => b
  | Raise _ => false
  end.

(** The noise flag as the specification words it: a scalar is a noise tag
    when it is nonzero, an array when any of its elements is nonzero. *)
Definition spec_is_noise (tag : NoiseTag) : bool :=
  match tag with
  | TagScalar v => negb (v =? 0)
  | TagArray vs => existsb (fun v => negb (v =? 0)) vs
  end.

Definition tag_at (row : Row) (i : nat) : NoiseTag :=
  nth i (fChannelNoiseTag row) (TagScalar 0).

Definition localId_at (row : Row) (i : nat) : Z :=
  nth i (fChannelLocalId row) 0.

(** The indices of the channels of an event that are not noise. *)
Definition non_noise_channels (row : Row) : list nat :=
  filter (fun i => negb (noisy (tag_at row i)))
         (seq 0 (List.length (fChannelCharge row))).

(** Every read of the loop body at channel [i] is inside its array and the
    tag has a truth value: the local id and the tag are read for every
    channel, the time and the position only for a channel that is not
    noise. *)
Definition channel_ok (row : Row) (i : nat) : bool :=
  match nth_error (fChannelLocalId row) i, nth_error (fChannelNoiseTag row) i with
  | Some _, Some tag =>
      match truth tag with
      | Ok true => true
      | Ok false =>
          (i <? List.length (fChannelTime row))%nat
          && (i <? List.length (fXPosition row))%nat
          && (i <? List.length (fYPosition row))%nat
      | Raise _ => false
      end
  | _, _ => false
  end.

(** An event with at least one channel all of whose reads succeed. *)
Definition event_ok (row : Row) : bool :=
  negb (List.length (fChannelCharge row) =? 0)%nat
  && forallb (channel_ok row) (seq 0 (List.length (fChannelCharge row))).

(** The invariant of the data model: the six arrays have one length. *)
Definition same_lengths (row : Row) : bool :=
  let nch := List.length (fChannelCharge row) in
  (List.length (fChannelTime row) =? nch)%nat
  && (List.length (fXPosition row) =? nch)%nat
  && (List.length (fYPosition row) =? nch)%nat
  && (List.length (fChannelNoiseTag row) =? nch)%nat
  && (List.length (fChannelLocalId row) =? nch)%nat.

(** The event cut to the length of its charge array. *)
Definition truncate (row : Row) : Row :=
  let nch := List.length (fChannelCharge row) in
  {| fChannelCharge := fChannelCharge row;
     fChannelTime := firstn nch (fChannelTime row);
     fXPosition := firstn nch (fXPosition row);
     fYPosition := firstn nch (fYPosition row);
     fChannelNoiseTag := firstn nch (fChannelNoiseTag row);
     fChannelLocalId := firstn nch (fChannelLocalId row) |}.

(** ** Concrete events *)

(** Two channels that are not noise: an X-channel at (10, 0) and a
    Y-channel at (0, 10), each of charge 5 and drift time 100. *)
Definition two_channel_event (x_id y_id : Z) : Row :=
  {| fChannelCharge := [5; 5]%float;
     fChannelTime := [100; 100]%float;
     fXPosition := [10; 0]%float;
     fYPosition := [0; 10]%float;
     fChannelNoiseTag := [TagScalar 0; TagScalar 0];
     fChannelLocalId := [x_id; y_id] |}.

(** One channel that is not noise and carries no charge. *)
Definition induction_event : Row :=
  {| fChannelCharge := [0]%float;
     fChannelTime := [100]%float;
     fXPosition := [10]%float;
     fYPosition := [0]%float;
     fChannelNoiseTag := [TagScalar 0];
     fChannelLocalId := [16] |}.


(** One noise channel. *)
Definition noise_event : Row :=
  {| fChannelCharge := [5]%float;
     fChannelTime := [100]%float;
     fXPosition := [10]%float;
     fYPosition := [0]%float;
     fChannelNoiseTag := [TagScalar 1];
     fChannelLocalId := [16] |}.

(** One channel of charge, two local ids: the arrays differ in length. *)
Definition long_id_event : Row :=
  {| fChannelCharge := [5]%float;
     fChannelTime := [100]%float;
     fXPosition := [10]%float;
     fYPosition := [0]%float;
     fChannelNoiseTag := [TagScalar 0];
     fChannelLocalId := [20; 3] |}.

(** One channel whose noise tag is the array [0, 1]. *)
Definition array_tag_event : Row :=
  {| fChannelCharge := [5]%float;
     fChannelTime := [100]%float;
     fXPosition := [10]%float;
     fYPosition := [0]%float;
     fChannelNoiseTag := [TagArray [0; 1]];
     fChannelLocalId := [16] |}.

(** Two channels of charge, one local id. *)
Definition short_id_event : Row :=
  {| fChannelCharge := [5; 5]%float;
     fChannelTime := [100; 100]%float;
     fXPosition := [10; 0]%float;
     fYPosition := [0; 10]%float;
     fChannelNoiseTag := [TagScalar 0; TagScalar 0];
     fChannelLocalId := [16] |}.

(** Three channels tagged by the array [1], the scalar 0 and the
    array [0]. *)
Definition mixed_event : Row :=
  {| fChannelCharge := [5; 7; 0]%float;
     fChannelTime := [100; 200; 300]%float;
     fXPosition := [10; 0; 4]%float;
     fYPosition := [0; 10; 4]%float;
     fChannelNoiseTag := [TagArray [1]; TagScalar 0; TagArray [0]];
     fChannelLocalId := [16; 3; 20] |}.

(** A generator whose standard normal deviates are all 1, and one whose
    deviates are all 0. *)
Definition unit_tape : Tape :=
  {| gauss_tape := [1; 1; 1; 1; 1; 1; 1; 1]%float;
     count_tape := [3; 2; 7; 4; 1; 5] |}.

Definition zero_tape : Tape :=
  {| gauss_tape := [0; 0; 0; 0; 0; 0; 0; 0]%float;
     count_tape := [0; 0; 0; 0; 0; 0] |}.


(** ** The programs, over an arbitrary generator *)

Section Extractor.

(** The state of numpy's global generator and its three samplers, each a
    function of the state that returns the draw and the next state. *)
Variable rng : Type.
Variable np_random_binomial : Z -> float -> rng -> Z * rng.
Variable np_random_poisson : float -> rng -> Z * rng.
Variable np_random_normal : float -> float -> rng -> float * rng.

(** Two facts of the count samplers, used for the light yield only: a
    binomial draw of [n] trials lies between 0 and [n], and a Poisson draw
    of rate 0.0 is 0. *)
Hypothesis binomial_support : forall n p s,
  0 <= n -> 0 <= fst (np_random_binomial n p s) <= n.
Hypothesis poisson_zero : forall s, fst (np_random_poisson 0%float s) = 0.

(** [np.random.seed]: the state of the generator after seeding. *)
Variable np_random_seed : Z -> rng.

(** Computations that draw from the generator and may raise. *)
Definition M (A : Type) : Type := rng -> Result A * rng.

Definition ret {A} (a : A) : M A := fun s => (Ok a, s).

Definition bind {A B} (m : M A) (k : A -> M B) : M B :=
  fun s =>
    match m s with
    | (Ok a, s') => k a s'
    | (Raise e, s') => (Raise e, s')
    end.

Definition lift {A} (r : Result A) : M A := fun s => (r, s).

Notation "x <- m ;; k" := (bind m (fun x => k))
  (at level 61, m at next level, right associativity).

Fixpoint foldM {A B} (f : B -> A -> M B) (l : list A) (b : B) : M B :=
  match l with
  | [] => ret b
  | x :: l' => b' <- f b x ;; foldM f l' b'
  end.

(** [np.random.normal(loc, scale)]. *)
Definition normal (loc scale : float) : M float :=
  fun s => let (x, s') := np_random_normal loc scale s in (Ok x, s').

(** [np.random.normal(loc, scale, size=n)]: [n] successive draws. *)
Fixpoint normal_size (loc scale : float) (size : nat) (s : rng)
  : list float * rng :=
  match size with
  | O => ([], s)
  | S n =>
      let (x, s1) := np_random_normal loc scale s in
      let (xs, s2) := normal_size loc scale n s1 in
      (x :: xs, s2)
  end.

(** [np.random.binomial(n, p)] on an array [n]: one draw per entry. *)
Fixpoint binomial_each (ns : list Z) (p : float) (s : rng) : list Z * rng :=
  match ns with
  | [] => ([], s)
  | n :: ns' =>
      let (k, s1) := np_random_binomial n p s in
      let (ks, s2) := binomial_each ns' p s1 in
      (k :: ks, s2)
  end.

(** [np.random.poisson(lam)] on an array [lam]: one draw per entry. *)
Fixpoint poisson_each (lams : list float) (s : rng) : list Z * rng :=
  match lams with
  | [] => ([], s)
  | lam :: lams' =>
      let (k, s1) := np_random_poisson lam s in
      let (ks, s2) := poisson_each lams' s1 in
      (k :: ks, s2)
  end.

(** *** ComputeObservedLight *)

(** Lines 7-11.  [np.random.binomial] refuses an array with a negative
    count and [np.random.poisson] an array with a negative rate
    (ValueError), each before it draws anything.  The other bound of
    [np.random.poisson], a rate above about 9.2e18, is out of reach of
    0.2 times an int64. *)
Definition ComputeObservedLight (fInitNOP : list Z) : M (list Z) :=
  fun s =>
    if existsb (fun n => n <? 0) fInitNOP then (Raise ValueError, s)
    else
      let (detected_photons, s1) := binomial_each fInitNOP 0.03%float s in
      let lam :=
        map (fun k => (float_of_int64 k * 0.2)%float) detected_photons in
      if existsb (fun l => (l <? 0)%float) lam then (Raise ValueError, s1)
      else
        let (smearing, s2) := poisson_each lam s1 in
        (Ok (map2 (fun a b => wrap64 (a + b)) detected_photons smearing), s2).

(** *** ComputeObservedCharge *)

(** Lines 63-72: the strip constants of a channel. *)
Definition strip_of (localId : Z) : Strip :=
  if localId >? 15 then
    {| strip_width := 96; strip_height := 6;
       xoffset := (- 96 / 2)%float; yoffset := 0 |}
  else
    {| strip_width := 6; strip_height := 96;
       xoffset := 0; yoffset := (- 96 / 2)%float |}.

(** Lines 63-88: the body of the loop over the channels of an event. *)
Definition channel_body (row : Row) (l : ChannelLists) (i : nat)
  : M ChannelLists :=
  localId <- lift (getitem (fChannelLocalId row) i) ;;
  let strip := strip_of localId in
  tag <- lift (getitem (fChannelNoiseTag row) i) ;;
  noise <- lift (truth tag) ;;
  if (noise : bool) then
    ret {| is_noise_channel := is_noise_channel l ++ [true];
           drift_times := drift_times l;
           x_positions := x_positions l;
           y_positions := y_positions l;
           x_weights := x_weights l;
           y_weights := y_weights l;
           charge_weights := charge_weights l;
           is_x_channel := is_x_channel l |}
  else
    t <- lift (getitem (fChannelTime row) i) ;;
    jitter <- normal 0 2 ;;
    x <- lift (getitem (fXPosition row) i) ;;
    y <- lift (getitem (fYPosition row) i) ;;
    q <- lift (getitem (fChannelCharge row) i) ;;
    localId' <- lift (getitem (fChannelLocalId row) i) ;;
    ret {| is_noise_channel := is_noise_channel l ++ [false];
           drift_times := drift_times l ++ [(t + jitter)%float];
           x_positions := x_positions l ++ [(x + xoffset strip)%float];
           y_positions := y_positions l ++ [(y + yoffset strip)%float];
           x_weights := x_weights l ++ [(1 / strip_width strip)%float];
           y_weights := y_weights l ++ [(1 / strip_height strip)%float];
           charge_weights := charge_weights l ++ [q];
           is_x_channel := is_x_channel l ++ [localId' >? 15] |}.

(** Lines 45-88: [for i in range(nch)] from empty lists. *)
Definition channel_loop (row : Row) : M ChannelLists :=
  foldM (channel_body row) (seq 0 (List.length (fChannelCharge row))) empty_lists.

(** Line 110-111: the fluctuated charge of every channel of the event. *)
Definition fluctuate (row : Row) : M (list float) :=
  fun s =>
    let (noise, s') :=
      normal_size 0 600 (List.length (fChannelCharge row)) s in
    (Ok (map2 PrimFloat.add noise (fChannelCharge row)), s').

(** [x**2] on a float64 scalar. *)
Definition square (x : float) : float := (x * x)%float.

(** Lines 90-125: the quantities of one event from its channel lists and
    fluctuated charges. *)
Definition observables (row : Row) (channel_threshold : float)
    (l : ChannelLists) (fluctuated_charge : list float)
    (not_noise : list bool) : EventObs :=
  let charge := fChannelCharge row in
  let cx := map2 PrimFloat.mul (charge_weights l) (x_weights l) in
  let cy := map2 PrimFloat.mul (charge_weights l) (y_weights l) in
  let weighted_x :=
    (np_sum (map2 PrimFloat.mul (x_positions l) cx) / np_sum cx)%float in
  let weighted_y :=
    (np_sum (map2 PrimFloat.mul (y_positions l) cy) / np_sum cy)%float in
  let nonzero_mask := map (fun q => negb (q =? 0)%float) charge in
  let threshold_mask :=
    map (fun f => (channel_threshold <? f)%float) fluctuated_charge in
  {| o_num_channels_in_evt := Z.of_nat (List.length charge);
     o_evt_charge_including_noise := np_sum (select charge nonzero_mask);
     o_evt_charge_excluding_noise :=
       np_sum (select charge (map2 andb nonzero_mask not_noise));
     o_evt_charge_above_threshold :=
       np_sum (select fluctuated_charge (map2 andb threshold_mask not_noise));
     o_num_channels_above_threshold :=
       np_count (map2 andb threshold_mask not_noise);
     o_num_channels_excluding_noise := np_count not_noise;
     o_num_channels_collection := np_count (map2 andb not_noise nonzero_mask);
     o_num_collection_below_threshold :=
       np_count (map2 andb (map2 andb not_noise nonzero_mask)
                           (map negb threshold_mask));
     o_num_channels_induction :=
       np_count (map2 andb not_noise (map negb nonzero_mask));
     o_weighted_radius :=
       PrimFloat.sqrt (square weighted_x + square weighted_y)%float;
     o_weighted_drift :=
       (np_sum (map2 PrimFloat.mul (drift_times l) (charge_weights l))
        / np_sum (charge_weights l))%float;
     o_num_channels_nonzero_charge_with_noise := np_count nonzero_mask;
     o_num_channels_nonzero_charge_excluding_noise :=
       np_count (map2 andb nonzero_mask not_noise) |}.

(** Lines 45-125: one event.  The channel loop runs first, then the size-nch
    normal draw of line 110; the first [np.invert(is_noise_channel)] is on
    line 116. *)
Definition process_event (row : Row) (channel_threshold : float) : M EventObs :=
  l <- channel_loop row ;;
  fluctuated_charge <- fluctuate row ;;
  not_noise <- lift (np_invert_list (is_noise_channel l)) ;;
  ret (observables row channel_threshold l fluctuated_charge not_noise).

(** Line 42: the arguments of the progress message are evaluated before it
    is printed; [time] and [start_time] are global names. *)
Definition progress_report : M unit :=
  _ <- lift (load_global "time") ;;
  _ <- lift (load_global "start_time") ;;
  ret tt.

(** Lines 39-125: the body of the loop over the rows, on the counter and
    the output lists. *)
Definition event_body (channel_threshold : float) (st : Z * OutputDict)
    (row : Row) : M (Z * OutputDict) :=
  let counter := fst st + 1 in
  _ <- (if counter mod 100000 =? 0 then progress_report else ret tt) ;;
  o <- process_event row channel_threshold ;;
  ret (counter, append_event (snd st) o).

Definition events_loop (channel_threshold : float) (dfelec : list Row)
    (st : Z * OutputDict) : M (Z * OutputDict) :=
  foldM (event_body channel_threshold) dfelec st.

Definition ComputeObservedCharge (dfelec : list Row) (channel_threshold : float)
  : M OutputDict :=
  st <- events_loop channel_threshold dfelec (0, empty_output) ;;
  ret (snd st).

(** The default of the keyword argument. *)
Definition default_channel_threshold : float := (-100000)%float.

(** *** The extractor: light, then charge, on one generator *)



(** *** What a successful run computes, in closed form *)

(** The lists after the body of the channel loop has run at channel [i],
    with [jitter] the deviate drawn for it. *)
Definition push_channel (row : Row) (l : ChannelLists) (i : nat)
    (jitter : float) : ChannelLists :=
  if noisy (tag_at row i) then
    {| is_noise_channel := is_noise_channel l ++ [true];
       drift_times := drift_times l;
       x_positions := x_positions l;
       y_positions := y_positions l;
       x_weights := x_weights l;
       y_weights := y_weights l;
       charge_weights := charge_weights l;
       is_x_channel := is_x_channel l |}
  else
    let strip := strip_of (localId_at row i) in
    {| is_noise_channel := is_noise_channel l ++ [false];
       drift_times :=
         drift_times l ++ [(nth i (fChannelTime row) 0 + jitter)%float];
       x_positions :=
         x_positions l ++ [(nth i (fXPosition row) 0 + xoffset strip)%float];
       y_positions :=
         y_positions l ++ [(nth i (fYPosition row) 0 + yoffset strip)%float];
       x_weights := x_weights l ++ [(1 / strip_width strip)%float];
       y_weights := y_weights l ++ [(1 / strip_height strip)%float];
       charge_weights := charge_weights l ++ [nth i (fChannelCharge row) 0%float];
       is_x_channel := is_x_channel l ++ [localId_at row i >? 15] |}.

(** The lists a run of the loop over the channels [ixs] adds, with
    [jitters] the deviates drawn for the channels that are not noise. *)
Definition lists_over (row : Row) (l : ChannelLists) (ixs : list nat)
    (jitters : list float) : ChannelLists :=
  let idx := filter (fun i => negb (noisy (tag_at row i))) ixs in
  {| is_noise_channel :=
       is_noise_channel l ++ map (fun i => noisy (tag_at row i)) ixs;
     drift_times :=
       drift_times l
       ++ map2 (fun i j => (nth i (fChannelTime row) 0 + j)%float) idx jitters;
     x_positions :=
       x_positions l
       ++ map (fun i => (nth i (fXPosition row) 0
                         + xoffset (strip_of (localId_at row i)))%float) idx;
     y_positions :=
       y_positions l
       ++ map (fun i => (nth i (fYPosition row) 0
                         + yoffset (strip_of (localId_at row i)))%float) idx;
     x_weights :=
       x_weights l
       ++ map (fun i => (1 / strip_width (strip_of (localId_at row i)))%float)
              idx;
     y_weights :=
       y_weights l
       ++ map (fun i => (1 / strip_height (strip_of (localId_at row i)))%float)
              idx;
     charge_weights :=
       charge_weights l ++ map (fun i => nth i (fChannelCharge row) 0%float) idx;
     is_x_channel :=
       is_x_channel l ++ map (fun i => localId_at row i >? 15) idx |}.

(** The fluctuated charges drawn for the event [row] when it follows the
    rows [pre] in a run from the state [s]. *)
Definition event_fluctuated_charge (channel_threshold : float)
    (pre : list Row) (row : Row) (s : rng) : list float :=
  match events_loop channel_threshold pre (0, empty_output) s with
  | (Ok _, s1) =>
      match channel_loop row s1 with
      | (Ok _, s2) =>
          match fluctuate row s2 with
          | (Ok fluctuated_charge, _) => fluctuated_charge
          | (Raise _, _) => []
          end
      | (Raise _, _) => []
      end
  | (Raise _, _) => []
  end.

(** The output lists [d] extended by the values of the events [os]. *)
Definition extend_output (d : OutputDict) (os : list EventObs) : OutputDict :=
  {| num_channels_in_evt :=
       num_channels_in_evt d ++ map o_num_channels_in_evt os;
     evt_charge_including_noise :=
       evt_charge_including_noise d ++ map o_evt_charge_including_noise os;
     evt_charge_excluding_noise :=
       evt_charge_excluding_noise d ++ map o_evt_charge_excluding_noise os;
     evt_charge_above_threshold :=
       evt_charge_above_threshold d ++ map o_evt_charge_above_threshold os;
     num_channels_above_threshold :=
       num_channels_above_threshold d ++ map o_num_channels_above_threshold os;
     num_channels_excluding_noise :=
       num_channels_excluding_noise d ++ map o_num_channels_excluding_noise os;
     num_channels_collection :=
       num_channels_collection d ++ map o_num_channels_collection os;
     num_collection_below_threshold :=
       num_collection_below_threshold d
         ++ map o_num_collection_below_threshold os;
     num_channels_induction :=
       num_channels_induction d ++ map o_num_channels_induction os;
     weighted_radius := weighted_radius d ++ map o_weighted_radius os;
     weighted_drift := weighted_drift d ++ map o_weighted_drift os;
     num_channels_nonzero_charge_with_noise :=
       num_channels_nonzero_charge_with_noise d
         ++ map o_num_channels_nonzero_charge_with_noise os;
     num_channels_nonzero_charge_excluding_noise :=
       num_channels_nonzero_charge_excluding_noise d
         ++ map o_num_channels_nonzero_charge_excluding_noise os |}.

(** The values appended by the events of a returning run, in order: the
    value of each event is that of [process_event] at the generator state
    the run reaches it in. *)
Fixpoint run_events (channel_threshold : float) (l : list Row) (s : rng)
  : list EventObs :=
  match l with
  | [] => []
  | row :: l' =>
      match process_event row channel_threshold s with
      | (Ok o, s') => o :: run_events channel_threshold l' s'
      | (Raise _, _) => []
      end
  end.

(** *** The quality cuts of the fit driver (Lightmap/roundtrip.py)

    The driver works on whole columns; the definitions below are its
    elementwise operations on the values of one event. *)

(** Lines 111-113: the reduced volume of the TPC. *)
Definition tpc_r : float := 566.65%float.
Definition tpc_zmax : float := (-402.97)%float.
Definition tpc_zmin : float := (-1585.97)%float.

(** Line 151: z from the weighted drift time. *)
Definition z_of_drift (weighted_drift : float) : float :=
  (-402.97 - weighted_drift * 1.709)%float.

(** Lines 175-176: [abs(v - (hi - lo)/2. - lo) > (hi - lo)/2.], the flag the
    driver calls [inside_z] and [inside_r]. *)
Definition off_centre (v lo hi : float) : bool :=
  ((hi - lo) / 2 <? PrimFloat.abs (v - (hi - lo) / 2 - lo))%float.

(** Lines 88-91: the charge/light cut keeps an event when its light is
    above 100, whatever its charge. *)
Definition cl_cut (x : float) (y : Z) : bool := y >? 100.

(** Lines 160-190: the cuts, in the order the driver combines them. *)
Definition event_cuts (standoff evt_charge_including_noise : float)
    (observed_light : Z) (weighted_drift weighted_radius : float) : bool :=
  let z := z_of_drift weighted_drift in
  let cuts := negb (evt_charge_including_noise =? 0)%float in
  let cuts := cuts && negb (PrimFloat.is_nan z) in
  let cuts := cuts && negb (observed_light =? 0) in
  let zlim0 := (tpc_zmin + standoff)%float in
  let zlim1 := (tpc_zmax - standoff)%float in
  let rlim0 := 0%float in
  let rlim1 := (tpc_r - standoff)%float in
  let inside_z := off_centre z zlim0 zlim1 in
  let inside_r := off_centre weighted_radius rlim0 rlim1 in
  let cuts := cuts && (negb inside_z && negb inside_r) in
  cuts && cl_cut evt_charge_including_noise observed_light.

(** ** Properties *)

(** *** The monad *)

Lemma bind_Ok {A B} (m : M A) (k : A -> M B) s a s1 :
  m s = (Ok a, s1) -> bind m k s = k a s1.
Proof. intros H. unfold bind. now rewrite H. Qed.

Lemma bind_Raise {A B} (m : M A) (k : A -> M B) s e s1 :
  m s = (Raise e, s1) -> bind m k s = (Raise e, s1).
Proof. intros H. unfold bind. now rewrite H. Qed.

Lemma bind_Ok_inv {A B} (m : M A) (k : A -> M B) s b s2 :
  bind m k s = (Ok b, s2) ->
  exists a s1, m s = (Ok a, s1) /\ k a s1 = (Ok b, s2).
Proof.
  unfold bind. destruct (m s) as [[a|e] s1]; intros H.
  - now exists a, s1.
  - discriminate.
Qed.

Lemma foldM_app {A B} (f : B -> A -> M B) l1 l2 b s :
  foldM f (l1 ++ l2) b s = bind (foldM f l1 b) (foldM f l2) s.
Proof.
  revert b s. induction l1 as [|x l1 IH]; intros b s; simpl.
  - reflexivity.
  - unfold bind. destruct (f b x s) as [[b'|e] s1].
    + rewrite IH. reflexivity.
    + reflexivity.
Qed.

(** An invariant of the loop state that every successful step keeps holds
    when the loop returns. *)
Lemma foldM_invariant {A B} (P : B -> Prop) (f : B -> A -> M B) l :
  (forall b x s b' s', P b -> f b x s = (Ok b', s') -> P b') ->
  forall b s b' s', P b -> foldM f l b s = (Ok b', s') -> P b'.
Proof.
  intros Hstep. induction l as [|x l IH]; intros b s b' s' Hb H; simpl in H.
  - inversion H. now subst.
  - apply bind_Ok_inv in H. destruct H as (b1 & s1 & H1 & H2).
    eapply IH; [|exact H2]. eapply Hstep; eauto.
Qed.

(** *** Reading arrays *)

Lemma getitem_Ok {A} (a : list A) i x d :
  getitem a i = Ok x -> nth i a d = x /\ (i < List.length a)%nat.
Proof.
  unfold getitem. destruct (nth_error a i) eqn:E; intros H; inversion H; subst.
  split.
  - now apply nth_error_nth.
  - apply nth_error_Some. congruence.
Qed.

Lemma getitem_lt {A} (a : list A) i d :
  (i < List.length a)%nat -> getitem a i = Ok (nth i a d).
Proof.
  intros H. unfold getitem.
  destruct (nth_error a i) eqn:E.
  - f_equal. symmetry. now apply nth_error_nth.
  - apply nth_error_None in E. lia.
Qed.

Lemma getitem_ge {A} (a : list A) i :
  (List.length a <= i)%nat -> getitem a i = Raise IndexError.
Proof.
  intros H. unfold getitem.
  destruct (nth_error a i) eqn:E; [|reflexivity].
  assert (nth_error a i <> None) as H1 by congruence.
  apply nth_error_Some in H1. lia.
Qed.

Lemma ltb_length_nth_error {A} (a : list A) i :
  (i <? List.length a)%nat
  = match nth_error a i with Some _ => true | None => false end.
Proof.
  destruct (nth_error a i) eqn:E.
  - apply Nat.ltb_lt. apply nth_error_Some. congruence.
  - apply Nat.ltb_ge. now apply nth_error_None.
Qed.

Lemma truth_noisy tag b : truth tag = Ok b -> noisy tag = b.
Proof. unfold noisy. now intros ->. Qed.

(** *** The body of the channel loop *)

Lemma channel_body_Ok row l i s l' s' :
  channel_body row l i s = (Ok l', s') ->
  channel_ok row i = true
  /\ l' = push_channel row l i (fst (np_random_normal 0 2 s))
  /\ s' = (if noisy (tag_at row i) then s else snd (np_random_normal 0 2 s)).
Proof.
  unfold channel_body, channel_ok, push_channel, tag_at, localId_at.
  unfold bind, lift, ret, normal, getitem.
  destruct (nth_error (fChannelLocalId row) i) as [lid|] eqn:Elid;
    [|discriminate].
  destruct (nth_error (fChannelNoiseTag row) i) as [tag|] eqn:Etag;
    [|discriminate].
  rewrite (nth_error_nth _ _ (TagScalar 0) Etag).
  rewrite (nth_error_nth _ _ 0 Elid).
  destruct (truth tag) as [[|]|e] eqn:Etruth; [| |discriminate].
  - rewrite (truth_noisy _ _ Etruth). intros H. inversion H. auto.
  - rewrite (truth_noisy _ _ Etruth).
    rewrite !ltb_length_nth_error.
    destruct (nth_error (fChannelTime row) i) as [t|] eqn:Et; [|discriminate].
    destruct (np_random_normal 0 2 s) as [jitter s1].
    destruct (nth_error (fXPosition row) i) as [x|] eqn:Ex; [|discriminate].
    destruct (nth_error (fYPosition row) i) as [y|] eqn:Ey; [|discriminate].
    destruct (nth_error (fChannelCharge row) i) as [q|] eqn:Eq; [|discriminate].
    rewrite (nth_error_nth _ _ 0%float Et), (nth_error_nth _ _ 0%float Ex),
      (nth_error_nth _ _ 0%float Ey), (nth_error_nth _ _ 0%float Eq).
    intros H. inversion H. auto.
Qed.

Lemma channel_body_is_ok row l i s :
  (i < List.length (fChannelCharge row))%nat ->
  is_ok (fst (channel_body row l i s)) = channel_ok row i.
Proof.
  intros Hi.
  unfold channel_body, channel_ok, bind, lift, ret, normal, getitem.
  destruct (nth_error (fChannelLocalId row) i) as [lid|]; [|reflexivity].
  destruct (nth_error (fChannelNoiseTag row) i) as [tag|]; [|reflexivity].
  destruct (truth tag) as [[|]|e]; [reflexivity| |reflexivity].
  rewrite !ltb_length_nth_error.
  destruct (nth_error (fChannelTime row) i) as [t|]; [|reflexivity].
  destruct (np_random_normal 0 2 s) as [jitter s1].
  destruct (nth_error (fXPosition row) i) as [x|]; [|reflexivity].
  destruct (nth_error (fYPosition row) i) as [y|]; [|reflexivity].
  destruct (nth_error (fChannelCharge row) i) as [q|] eqn:Eq; [reflexivity|].
  apply nth_error_None in Eq. lia.
Qed.

(** *** The channel loop *)

Lemma channel_fold_Ok row ixs : forall l0 s l s',
  foldM (channel_body row) ixs l0 s = (Ok l, s') ->
  let n := List.length (filter (fun i => negb (noisy (tag_at row i))) ixs) in
  forallb (channel_ok row) ixs = true
  /\ l = lists_over row l0 ixs (fst (normal_size 0 2 n s))
  /\ s' = snd (normal_size 0 2 n s).
Proof.
  induction ixs as [|i ixs IH]; intros l0 s l s' H; simpl in H.
  - inversion H; subst. simpl. unfold lists_over. simpl.
    rewrite !app_nil_r. destruct l; auto.
  - apply bind_Ok_inv in H. destruct H as (l1 & s1 & H1 & H2).
    apply channel_body_Ok in H1. destruct H1 as (Hok & Hl1 & Hs1).
    apply IH in H2. cbv zeta in H2. destruct H2 as (Hoks & Hl & Hs').
    cbv zeta. simpl forallb. rewrite Hok, Hoks. split; [reflexivity|].
    simpl filter. unfold push_channel in Hl1.
    destruct (noisy (tag_at row i)) eqn:En; simpl negb; cbv iota.
    + subst s1. split; [|assumption].
      rewrite Hl, Hl1. unfold lists_over. simpl. rewrite En. simpl.
      rewrite <- !app_assoc. reflexivity.
    + simpl List.length. simpl normal_size.
      destruct (np_random_normal 0 2 s) as [j sj]. simpl in Hl1, Hs1.
      subst s1.
      destruct (normal_size 0 2 _ sj) as [js s2]. simpl in Hl, Hs'. simpl.
      split; [|assumption].
      rewrite Hl, Hl1. unfold lists_over. simpl. rewrite En. simpl.
      rewrite <- !app_assoc. reflexivity.
Qed.

Lemma channel_fold_is_ok row ixs : forall l0 s,
  Forall (fun i => (i < List.length (fChannelCharge row))%nat) ixs ->
  is_ok (fst (foldM (channel_body row) ixs l0 s)) = forallb (channel_ok row) ixs.
Proof.
  induction ixs as [|i ixs IH]; intros l0 s Hlt; simpl.
  - reflexivity.
  - inversion Hlt as [|? ? Hi Hrest]; subst.
    rewrite <- (channel_body_is_ok row l0 i s Hi).
    unfold bind. destruct (channel_body row l0 i s) as [[l1|e] s1]; simpl.
    + now apply IH.
    + reflexivity.
Qed.

Lemma seq_lt n : Forall (fun i => (i < n)%nat) (seq 0 n).
Proof. apply Forall_forall. intros i Hi. apply in_seq in Hi. lia. Qed.

(** The channel loop returns exactly when every read of every channel
    succeeds. *)
Lemma channel_loop_is_ok row s :
  is_ok (fst (channel_loop row s))
  = forallb (channel_ok row) (seq 0 (List.length (fChannelCharge row))).
Proof. apply channel_fold_is_ok, seq_lt. Qed.

(** When the channel loop returns, its lists are those of the channels
    that are not noise, in order, and it has drawn one deviate for each. *)
Lemma channel_loop_Ok row s l s' :
  channel_loop row s = (Ok l, s') ->
  let n := List.length (non_noise_channels row) in
  l = lists_over row empty_lists (seq 0 (List.length (fChannelCharge row)))
        (fst (normal_size 0 2 n s))
  /\ s' = snd (normal_size 0 2 n s).
Proof.
  intros H. apply channel_fold_Ok in H. cbv zeta in H.
  destruct H as (_ & Hl & Hs). split; assumption.
Qed.

(** *** One event *)

Lemma is_noise_channel_loop row s l s' :
  channel_loop row s = (Ok l, s') ->
  is_noise_channel l
  = map (fun i => noisy (tag_at row i))
        (seq 0 (List.length (fChannelCharge row))).
Proof.
  intros H. apply channel_loop_Ok in H. destruct H as (-> & _). reflexivity.
Qed.

Lemma length_is_noise_channel row s l s' :
  channel_loop row s = (Ok l, s') ->
  List.length (is_noise_channel l) = List.length (fChannelCharge row).
Proof.
  intros H. rewrite (is_noise_channel_loop _ _ _ _ H).
  now rewrite length_map, length_seq.
Qed.

Lemma fluctuate_Ok row s :
  exists fl s', fluctuate row s = (Ok fl, s').
Proof.
  unfold fluctuate.
  destruct (normal_size 0 600 (List.length (fChannelCharge row)) s) as [n s'].
  eauto.
Qed.

Lemma np_invert_list_Ok l :
  l <> [] -> np_invert_list l = Ok (map negb l).
Proof. destruct l; [congruence | reflexivity]. Qed.

(** What a returning event has computed. *)
Lemma process_event_Ok row thr s o s' :
  process_event row thr s = (Ok o, s') ->
  exists l s1 fl,
    channel_loop row s = (Ok l, s1)
    /\ fluctuate row s1 = (Ok fl, s')
    /\ List.length (fChannelCharge row) <> 0%nat
    /\ o = observables row thr l fl (map negb (is_noise_channel l)).
Proof.
  unfold process_event. intros H.
  apply bind_Ok_inv in H. destruct H as (l & s1 & Hl & H).
  apply bind_Ok_inv in H. destruct H as (fl & s2 & Hfl & H).
  apply bind_Ok_inv in H. destruct H as (nn & s3 & Hnn & H).
  unfold lift in Hnn. unfold ret in H.
  inversion Hnn; subst s3. inversion H; subst.
  exists l, s1, fl. repeat split; try assumption.
  - rewrite <- (length_is_noise_channel _ _ _ _ Hl).
    destruct (is_noise_channel l); [discriminate | simpl; lia].
  - destruct (is_noise_channel l) eqn:E; [discriminate|].
    simpl in H1. inversion H1. reflexivity.
Qed.

(** An event is processed without an exception exactly when it has a
    channel and every read of every channel succeeds. *)
Lemma process_event_is_ok row thr s :
  is_ok (fst (process_event row thr s)) = event_ok row.
Proof.
  unfold event_ok. rewrite <- (channel_loop_is_ok row s).
  unfold process_event, bind.
  destruct (channel_loop row s) as [[l|e] s1] eqn:Hl; simpl.
  - destruct (fluctuate_Ok row s1) as (fl & s2 & ->).
    unfold lift, ret.
    pose proof (length_is_noise_channel _ _ _ _ Hl) as Hlen.
    destruct (is_noise_channel l) as [|b bs]; simpl in *.
    + rewrite <- Hlen. reflexivity.
    + rewrite <- Hlen. reflexivity.
  - now rewrite andb_false_r.
Qed.

(** *** Counting *)

Lemma np_count_shift m : forall n,
  fold_left (fun n (b : bool) => if b then n + 1 else n) m n = n + np_count m.
Proof.
  unfold np_count.
  induction m as [|b m IH]; intros n; cbn [fold_left].
  - lia.
  - destruct b.
    + rewrite IH, (IH (0 + 1)). lia.
    + rewrite IH, (IH 0). lia.
Qed.

Lemma np_count_cons b m :
  np_count (b :: m) = (if b then 1 else 0) + np_count m.
Proof.
  unfold np_count at 1. simpl. rewrite np_count_shift. destruct b; lia.
Qed.

Lemma np_count_nil : np_count [] = 0.
Proof. reflexivity. Qed.

(** Channels that are not noise split into those with a charge and those
    without. *)
Lemma np_count_split nn : forall nz,
  List.length nn = List.length nz ->
  np_count (map2 andb nn nz) + np_count (map2 andb nn (map negb nz))
  = np_count nn.
Proof.
  induction nn as [|a nn IH]; intros [|b nz] Hlen;
    cbn [map2 map List.length] in *; try discriminate; try reflexivity.
  rewrite !np_count_cons. injection Hlen as Hlen.
  specialize (IH nz Hlen). destruct a, b; cbn [andb negb]; lia.
Qed.

Lemma np_count_all_false m :
  Forall (fun b => b = false) m -> np_count m = 0.
Proof.
  induction 1 as [|b m Hb _ IH]; [reflexivity|].
  rewrite np_count_cons, IH, Hb. reflexivity.
Qed.

Lemma select_all_false {A} (a : list A) : forall m,
  Forall (fun b => b = false) m -> select a m = [].
Proof.
  induction a as [|x a IH]; intros m Hm; [reflexivity|].
  destruct Hm as [|b m Hb Hm]; [reflexivity|].
  simpl. rewrite Hb. now apply IH.
Qed.

Lemma map2_andb_false_l m : forall nn,
  Forall (fun b => b = false) m ->
  Forall (fun b => b = false) (map2 andb m nn).
Proof.
  induction m as [|a m IH]; intros nn Hm; [constructor|].
  destruct nn as [|b nn]; [constructor|].
  inversion Hm; subst. simpl. constructor; [reflexivity|now apply IH].
Qed.

(** *** The loop over the events *)

Lemma progress_report_raises s : progress_report s = (Raise NameError, s).
Proof. reflexivity. Qed.

Lemma event_body_report thr st row s :
  (fst st + 1) mod 100000 = 0 ->
  event_body thr st row s = (Raise NameError, s).
Proof.
  intros H. unfold event_body. rewrite H. reflexivity.
Qed.

Lemma event_body_quiet thr st row s :
  (fst st + 1) mod 100000 <> 0 ->
  event_body thr st row s
  = bind (process_event row thr)
         (fun o => ret (fst st + 1, append_event (snd st) o)) s.
Proof.
  intros H. unfold event_body.
  destruct ((fst st + 1) mod 100000 =? 0) eqn:E.
  - apply Z.eqb_eq in E. contradiction.
  - reflexivity.
Qed.

Lemma event_body_Ok thr st row s st' s' :
  event_body thr st row s = (Ok st', s') ->
  (fst st + 1) mod 100000 <> 0
  /\ exists o, process_event row thr s = (Ok o, s')
               /\ st' = (fst st + 1, append_event (snd st) o).
Proof.
  intros H.
  destruct (Z.eq_dec ((fst st + 1) mod 100000) 0) as [E|E].
  - rewrite (event_body_report _ _ _ _ E) in H. discriminate.
  - split; [assumption|].
    rewrite (event_body_quiet _ _ _ _ E) in H.
    apply bind_Ok_inv in H. destruct H as (o & s1 & Ho & H).
    unfold ret in H. inversion H; subst. eauto.
Qed.

Lemma events_loop_counter thr l : forall st s st' s',
  events_loop thr l st s = (Ok st', s') ->
  fst st' = fst st + Z.of_nat (List.length l).
Proof.
  unfold events_loop.
  induction l as [|row l IH]; intros st s st' s' H; simpl in H.
  - inversion H; subst. simpl. lia.
  - apply bind_Ok_inv in H. destruct H as (st1 & s1 & H1 & H2).
    apply event_body_Ok in H1. destruct H1 as (_ & o & _ & ->).
    apply IH in H2. simpl in H2. simpl List.length. lia.
Qed.

(** Below the 100000th event the loop returns exactly when every event
    can be processed. *)
Lemma events_loop_is_ok thr l : forall st s,
  0 <= fst st ->
  fst st + Z.of_nat (List.length l) < 100000 ->
  is_ok (fst (events_loop thr l st s)) = forallb event_ok l.
Proof.
  unfold events_loop.
  induction l as [|row l IH]; intros st s H0 Hlt; simpl.
  - reflexivity.
  - simpl List.length in Hlt.
    assert ((fst st + 1) mod 100000 <> 0) as Hq
      by (rewrite Z.mod_small; lia).
    unfold bind at 1. rewrite (event_body_quiet _ _ _ _ Hq).
    rewrite <- (process_event_is_ok row thr s).
    unfold bind at 1.
    destruct (process_event row thr s) as [[o|e] s1]; simpl.
    + apply IH; simpl; lia.
    + reflexivity.
Qed.

(** The loop never runs past the 100000th event. *)
Lemma events_loop_long thr l : forall st s,
  0 <= fst st < 100000 ->
  100000 <= fst st + Z.of_nat (List.length l) ->
  is_ok (fst (events_loop thr l st s)) = false.
Proof.
  unfold events_loop.
  induction l as [|row l IH]; intros st s H0 Hge; simpl.
  - simpl in Hge. lia.
  - simpl List.length in Hge. unfold bind at 1.
    destruct (event_body thr st row s) as [[st1|e] s1] eqn:Hb; simpl.
    + apply event_body_Ok in Hb. destruct Hb as (Hq & o & _ & ->).
      apply IH; simpl; [|lia].
      assert (fst st + 1 <> 100000); [|lia].
      intros E. apply Hq. rewrite E. reflexivity.
    + reflexivity.
Qed.

(** [ComputeObservedCharge] returns its dictionary exactly when the input
    has fewer than 100000 events and each of them can be processed. *)
Lemma ComputeObservedCharge_is_ok dfelec thr s :
  is_ok (fst (ComputeObservedCharge dfelec thr s))
  = forallb event_ok dfelec && (Z.of_nat (List.length dfelec) <? 100000).
Proof.
  unfold ComputeObservedCharge, bind.
  destruct (Z.of_nat (List.length dfelec) <? 100000) eqn:E.
  - apply Z.ltb_lt in E. rewrite andb_true_r.
    rewrite <- (events_loop_is_ok thr dfelec (0, empty_output) s);
      [|simpl; lia|simpl; lia].
    destruct (events_loop thr dfelec (0, empty_output) s) as [[st|e] s1];
      reflexivity.
  - apply Z.ltb_ge in E. rewrite andb_false_r.
    pose proof (events_loop_long thr dfelec (0, empty_output) s) as H.
    destruct (events_loop thr dfelec (0, empty_output) s) as [[st|e] s1].
    + simpl in H. discriminate H; lia.
    + reflexivity.
Qed.

Lemma ComputeObservedCharge_Ok dfelec thr s out s' :
  ComputeObservedCharge dfelec thr s = (Ok out, s') ->
  exists c, events_loop thr dfelec (0, empty_output) s = (Ok (c, out), s').
Proof.
  unfold ComputeObservedCharge. intros H.
  apply bind_Ok_inv in H. destruct H as ([c d] & s1 & H1 & H).
  unfold ret in H. inversion H; subst. simpl. eauto.
Qed.

(** A batch of one event. *)
Lemma ComputeObservedCharge_one row thr s :
  ComputeObservedCharge [row] thr s
  = bind (process_event row thr)
         (fun o => ret (append_event empty_output o)) s.
Proof.
  unfold ComputeObservedCharge, events_loop. simpl.
  unfold bind at 1 2. rewrite event_body_quiet by (simpl; discriminate).
  unfold bind, ret. destruct (process_event row thr s) as [[o|e] s1];
    reflexivity.
Qed.

(** *** The output lists *)

Lemma extend_output_nil d : extend_output d [] = d.
Proof.
  destruct d. unfold extend_output. simpl. rewrite !app_nil_r. reflexivity.
Qed.

Lemma extend_output_cons d o os :
  extend_output d (o :: os) = extend_output (append_event d o) os.
Proof.
  unfold extend_output, append_event. simpl.
  rewrite <- !app_assoc. reflexivity.
Qed.

(** A returning run appends the values of its events, one per row. *)
Lemma events_loop_Ok thr l : forall st s st' s',
  events_loop thr l st s = (Ok st', s') ->
  snd st' = extend_output (snd st) (run_events thr l s)
  /\ List.length (run_events thr l s) = List.length l.
Proof.
  unfold events_loop.
  induction l as [|row l IH]; intros st s st' s' H; simpl in H.
  - inversion H; subst. simpl. now rewrite extend_output_nil.
  - apply bind_Ok_inv in H. destruct H as (st1 & s1 & H1 & H2).
    apply event_body_Ok in H1. destruct H1 as (_ & o & Ho & ->).
    apply IH in H2. destruct H2 as (Hd & Hlen). simpl in Hd.
    simpl run_events. rewrite Ho. rewrite extend_output_cons.
    simpl. now rewrite Hlen.
Qed.

Lemma run_events_Forall thr (P : EventObs -> Prop) :
  (forall row s o s', process_event row thr s = (Ok o, s') -> P o) ->
  forall l s, Forall P (run_events thr l s).
Proof.
  intros HP. induction l as [|row l IH]; intros s; simpl.
  - constructor.
  - destruct (process_event row thr s) as [[o|e] s1] eqn:Ho.
    + constructor; [now apply (HP _ _ _ _ Ho) | apply IH].
    + constructor.
Qed.

Lemma run_events_app thr pre : forall post st s st1 s1,
  events_loop thr pre st s = (Ok st1, s1) ->
  run_events thr (pre ++ post) s
  = run_events thr pre s ++ run_events thr post s1.
Proof.
  unfold events_loop.
  induction pre as [|r pre IH]; intros post st s st1 s1 H; simpl in H.
  - inversion H; subst. reflexivity.
  - apply bind_Ok_inv in H. destruct H as (st2 & s2 & H1 & H2).
    apply event_body_Ok in H1. destruct H1 as (_ & o & Ho & ->).
    simpl app. cbn [run_events]. rewrite Ho. simpl app. f_equal.
    eapply IH. exact H2.
Qed.

Lemma nth_error_map_middle {A B} (f : A -> B) a o b :
  nth_error (map f (a ++ o :: b)) (List.length a) = Some (f o).
Proof.
  rewrite map_app. rewrite nth_error_app2 by (rewrite length_map; lia).
  rewrite length_map, Nat.sub_diag. reflexivity.
Qed.

(** The event that follows the rows [pre] in a returning run: it is
    processed in the state the run over [pre] ends in, and its value is
    entry [length pre] of every output list. *)
Lemma batch_event thr pre row post s out s' :
  ComputeObservedCharge (pre ++ row :: post) thr s = (Ok out, s') ->
  exists st1 s1 o s2,
    events_loop thr pre (0, empty_output) s = (Ok st1, s1)
    /\ process_event row thr s1 = (Ok o, s2)
    /\ List.length (run_events thr pre s) = List.length pre
    /\ out = extend_output empty_output
               (run_events thr pre s ++ o :: run_events thr post s2).
Proof.
  intros H. apply ComputeObservedCharge_Ok in H. destruct H as (c & H).
  pose proof (events_loop_Ok _ _ _ _ _ _ H) as (Hout & _). simpl in Hout.
  unfold events_loop in H. rewrite foldM_app in H.
  apply bind_Ok_inv in H. destruct H as (st1 & s1 & Hpre & H).
  simpl in H. apply bind_Ok_inv in H. destruct H as (st2 & s2 & Hrow & _).
  apply event_body_Ok in Hrow. destruct Hrow as (_ & o & Ho & _).
  exists st1, s1, o, s2.
  pose proof (events_loop_Ok _ _ _ _ _ _ Hpre) as (_ & Hlen).
  repeat split; try assumption.
  rewrite Hout. rewrite (run_events_app _ _ _ _ _ _ _ Hpre).
  cbn [run_events]. rewrite Ho. reflexivity.
Qed.

(** *** Floating-point comparison *)

Lemma compare_cont_swap mx my :
  Pos.compare_cont Eq my mx = CompOpp (Pos.compare_cont Eq mx my).
Proof. now rewrite Pos.compare_cont_antisym. Qed.

Lemma SFltb_asym x y : SFltb x y = true -> SFltb y x = false.
Proof.
  unfold SFltb, SFcompare.
  destruct x as [sx|sx| |sx mx ex], y as [sy|sy| |sy my ey];
    try discriminate; try reflexivity;
    try (destruct sx; try discriminate; reflexivity);
    try (destruct sy; try discriminate; reflexivity);
    try (destruct sx, sy; try discriminate; reflexivity).
  rewrite (Z.compare_antisym ex ey), (compare_cont_swap mx my).
  destruct sx, sy; try discriminate; try reflexivity;
    destruct (ex ?= ey)%Z; cbn [CompOpp]; try discriminate; try reflexivity;
    destruct (Pos.compare_cont Eq mx my); cbn [CompOpp];
    try discriminate; reflexivity.
Qed.

(** [x < y] excludes [y < x], also at NaN and the infinities. *)
Lemma ltb_asym (x y : float) :
  (x <? y)%float = true -> (y <? x)%float = false.
Proof. rewrite !ltb_spec. apply SFltb_asym. Qed.

(** *** Channel counts *)

Lemma process_event_counts row thr s o s' :
  process_event row thr s = (Ok o, s') ->
  o_num_channels_collection o + o_num_channels_induction o
  = o_num_channels_excluding_noise o.
Proof.
  intros H. apply process_event_Ok in H.
  destruct H as (l & s1 & fl & Hl & _ & _ & ->).
  unfold observables. cbn [o_num_channels_collection o_num_channels_induction
    o_num_channels_excluding_noise].
  apply np_count_split.
  rewrite !length_map. now apply (length_is_noise_channel _ _ _ _ Hl).
Qed.

Lemma map2_add_map {A} (f g h : A -> Z) os :
  Forall (fun o => f o + g o = h o) os ->
  map2 Z.add (map f os) (map g os) = map h os.
Proof.
  induction 1 as [|o os Ho _ IH]; simpl; [reflexivity|].
  now rewrite Ho, IH.
Qed.

(** C7: in the dictionary [ComputeObservedCharge] returns, entry by entry,
    num_channels_collection + num_channels_induction is
    num_channels_excluding_noise, and the lists have one entry per event. *)
Theorem collection_plus_induction dfelec thr s out s' :
  ComputeObservedCharge dfelec thr s = (Ok out, s') ->
  map2 Z.add (num_channels_collection out) (num_channels_induction out)
  = num_channels_excluding_noise out
  /\ List.length (num_channels_collection out) = List.length dfelec
  /\ List.length (num_channels_induction out) = List.length dfelec
  /\ List.length (num_channels_excluding_noise out) = List.length dfelec.
Proof.
  intros H. apply ComputeObservedCharge_Ok in H. destruct H as (c & H).
  apply events_loop_Ok in H. destruct H as (Hout & Hlen). simpl in Hout.
  subst out. unfold extend_output.
  cbn [num_channels_collection num_channels_induction
       num_channels_excluding_noise empty_output app].
  rewrite !length_map, Hlen. repeat split.
  apply map2_add_map.
  apply (run_events_Forall thr
           (fun o => o_num_channels_collection o + o_num_channels_induction o
                     = o_num_channels_excluding_noise o)).
  intros row s0 o s1. apply process_event_counts.
Qed.

(** *** A threshold above every fluctuated charge *)

Lemma observables_below_threshold row thr l fl nn :
  Forall (fun f => (f <? thr)%float = true) fl ->
  o_num_channels_above_threshold (observables row thr l fl nn) = 0
  /\ o_evt_charge_above_threshold (observables row thr l fl nn) = 0%float.
Proof.
  intros Hfl. unfold observables.
  cbn [o_num_channels_above_threshold o_evt_charge_above_threshold].
  assert (Forall (fun b => b = false)
            (map2 andb (map (fun f => (thr <? f)%float) fl) nn)) as Hmask.
  { apply map2_andb_false_l. apply Forall_map.
    eapply Forall_impl; [|exact Hfl]. intros f Hf. now apply ltb_asym. }
  split.
  - now apply np_count_all_false.
  - now rewrite select_all_false.
Qed.

(** C8: when the threshold is strictly above every fluctuated charge of
    an event, the run returns 0 for the number of channels above threshold
    and 0 for the charge above threshold of that event. *)
Theorem threshold_above_all_charges thr pre row post s out s' :
  ComputeObservedCharge (pre ++ row :: post) thr s = (Ok out, s') ->
  Forall (fun f => (f <? thr)%float = true)
         (event_fluctuated_charge thr pre row s) ->
  nth_error (num_channels_above_threshold out) (List.length pre) = Some 0
  /\ nth_error (evt_charge_above_threshold out) (List.length pre)
     = Some 0%float.
Proof.
  intros H Hbelow. apply batch_event in H.
  destruct H as (st1 & s1 & o & s2 & Hpre & Ho & Hlen & ->).
  apply process_event_Ok in Ho.
  destruct Ho as (l & s1' & fl & Hl & Hfl & _ & ->).
  unfold event_fluctuated_charge in Hbelow.
  rewrite Hpre, Hl, Hfl in Hbelow.
  destruct (observables_below_threshold row thr l fl
              (map negb (is_noise_channel l)) Hbelow) as (Hn & Hq).
  unfold extend_output.
  cbn [num_channels_above_threshold evt_charge_above_threshold
       empty_output app].
  rewrite <- Hlen, !nth_error_map_middle. now rewrite Hn, Hq.
Qed.

(** *** The progress report *)


(** *** The light yield at zero photons *)

Lemma nth_error_map2 {A B C} (f : A -> B -> C) a : forall b i x y,
  nth_error a i = Some x -> nth_error b i = Some y ->
  nth_error (map2 f a b) i = Some (f x y).
Proof.
  induction a as [|x0 a IH]; intros b i x y Ha Hb.
  - destruct i; discriminate.
  - destruct b as [|y0 b]; [destruct i; discriminate|].
    destruct i as [|i]; simpl in *.
    + now inversion Ha; inversion Hb.
    + now apply IH.
Qed.

Lemma binomial_each_nth p ns : forall s i n,
  nth_error ns i = Some n ->
  exists s0,
    nth_error (fst (binomial_each ns p s)) i
    = Some (fst (np_random_binomial n p s0)).
Proof.
  induction ns as [|m ns IH]; intros s i n Hi.
  - destruct i; discriminate.
  - simpl. destruct (np_random_binomial m p s) as [k s1] eqn:Ek.
    specialize (IH s1).
    destruct (binomial_each ns p s1) as [ks s2]. simpl in *.
    destruct i as [|i]; simpl in *.
    + inversion Hi; subst. exists s. now rewrite Ek.
    + now apply IH.
Qed.

Lemma poisson_each_nth lams : forall s i lam,
  nth_error lams i = Some lam ->
  exists s0,
    nth_error (fst (poisson_each lams s)) i
    = Some (fst (np_random_poisson lam s0)).
Proof.
  induction lams as [|m lams IH]; intros s i lam Hi.
  - destruct i; discriminate.
  - simpl. destruct (np_random_poisson m s) as [k s1] eqn:Ek.
    specialize (IH s1).
    destruct (poisson_each lams s1) as [ks s2]. simpl in *.
    destruct i as [|i]; simpl in *.
    + inversion Hi; subst. exists s. now rewrite Ek.
    + now apply IH.
Qed.

Lemma binomial_each_not_negative p ns : forall s,
  Forall (fun n => 0 <= n) ns ->
  Forall (fun k => 0 <= k) (fst (binomial_each ns p s)).
Proof.
  induction ns as [|n ns IH]; intros s Hns; simpl.
  - constructor.
  - inversion Hns as [|n0 ns0 Hn Hns']; subst.
    pose proof (binomial_support n p s Hn) as Hk.
    destruct (np_random_binomial n p s) as [k s1]. simpl in Hk.
    specialize (IH s1 Hns').
    destruct (binomial_each ns p s1) as [ks s2]. simpl in *.
    constructor; [lia|assumption].
Qed.

Lemma no_negative_count ns :
  Forall (fun n => 0 <= n) ns -> existsb (fun n => n <? 0) ns = false.
Proof.
  induction 1 as [|n ns Hn _ IH]; simpl; [reflexivity|].
  rewrite IH. destruct (Z.ltb_spec n 0); [lia|reflexivity].
Qed.

Lemma binary_round_aux_not_negative mx ex lx :
  not_negative (binary_round_aux prec emax false mx ex lx).
Proof.
  unfold binary_round_aux.
  destruct (shr_fexp prec emax mx ex lx) as [m1 e1].
  destruct (shr_fexp prec emax _ e1 loc_Exact) as [m2 e2].
  destruct (shr_m m2); [exact I| |exact I].
  destruct (e2 <=? emax - prec); exact I.
Qed.

Lemma of_uint63_not_negative n : not_negative (Prim2SF (of_uint63 n)).
Proof.
  rewrite FloatAxioms.of_uint63_spec. unfold binary_normalize.
  pose proof (Uint63.to_Z_bounded n) as Hb.
  destruct (Uint63.to_Z n) as [|m|m]; [exact I| |lia].
  unfold binary_round.
  destruct (shl_align _ _ _) as [mz ez].
  apply binary_round_aux_not_negative.
Qed.

Lemma mul_not_negative x m e :
  not_negative x -> not_negative (SFmul prec emax x (S754_finite false m e)).
Proof.
  destruct x as [sx|sx| |sx mx ex]; simpl; intros H; try exact I.
  - destruct sx; [contradiction|exact I].
  - destruct sx; [contradiction|]. apply binary_round_aux_not_negative.
Qed.

Lemma not_negative_ltb_zero x :
  not_negative (Prim2SF x) -> (x <? 0)%float = false.
Proof.
  rewrite FloatAxioms.ltb_spec. change (Prim2SF 0) with (S754_zero false).
  destruct (Prim2SF x) as [sx|sx| |sx mx ex]; simpl; intros H;
    try reflexivity; destruct sx; try contradiction; reflexivity.
Qed.

(** The Poisson rate of a count that is not negative passes the sampler's
    check. *)
Lemma rate_not_negative k :
  0 <= k -> (float_of_int64 k * 0.2 <? 0)%float = false.
Proof.
  intros Hk. unfold float_of_int64.
  destruct (Z.eqb_spec k (- 2 ^ 63)) as [E|_]; [lia|].
  destruct (Z.ltb_spec k 0) as [E|_]; [lia|].
  apply not_negative_ltb_zero. rewrite FloatAxioms.mul_spec.
  change (Prim2SF 0.2) with (S754_finite false 7205759403792794 (-55)).
  apply mul_not_negative, of_uint63_not_negative.
Qed.

Lemma no_negative_rate ks :
  Forall (fun k => 0 <= k) ks ->
  existsb (fun l => (l <? 0)%float)
    (map (fun k => (float_of_int64 k * 0.2)%float) ks) = false.
Proof.
  induction 1 as [|k ks Hk _ IH]; simpl; [reflexivity|].
  now rewrite IH, rate_not_negative.
Qed.

(** C9: on an array of photon counts none of which is negative,
    [ComputeObservedLight] returns, and an event with fInitNOP = 0 gets
    detected_photoelectrons = 0, for every generator whose count samplers
    have their two properties ([binomial_support], [poisson_zero]) and
    every state of it. *)
Theorem no_photons_no_photoelectrons fInitNOP s i :
  Forall (fun n => 0 <= n) fInitNOP ->
  nth_error fInitNOP i = Some 0 ->
  exists detected_photoelectrons s',
    ComputeObservedLight fInitNOP s = (Ok detected_photoelectrons, s')
    /\ nth_error detected_photoelectrons i = Some 0.
Proof.
  intros Hpos Hi. unfold ComputeObservedLight.
  rewrite (no_negative_count _ Hpos).
  destruct (binomial_each_nth 0.03%float fInitNOP s i 0 Hi) as (s0 & Hk).
  pose proof (binomial_each_not_negative 0.03%float fInitNOP s Hpos) as Hdp.
  destruct (binomial_each fInitNOP 0.03%float s) as [detected_photons s1].
  simpl in Hk, Hdp.
  rewrite (no_negative_rate _ Hdp).
  assert (fst (np_random_binomial 0 0.03%float s0) = 0) as Hzero
    by (pose proof (binomial_support 0 0.03%float s0); lia).
  rewrite Hzero in Hk.
  assert (nth_error
            (map (fun k => (float_of_int64 k * 0.2)%float) detected_photons) i
          = Some 0%float) as Hlam
    by (rewrite nth_error_map, Hk; reflexivity).
  destruct (poisson_each_nth _ s1 i _ Hlam) as (s0' & Hm).
  destruct (poisson_each _ s1) as [smearing s2]. simpl in Hm.
  rewrite poisson_zero in Hm.
  eexists; eexists; split; [reflexivity|].
  now rewrite (nth_error_map2 _ _ _ _ _ _ Hk Hm).
Qed.

(** *** Strip geometry *)

(** C2: for the channels of an event that are not noise, in order, the
    channel is an X-channel exactly when its local id is above 15; an
    X-channel is weighted with 1/96 in x and 1/6 in y and shifted by -48 in
    x and 0 in y, a Y-channel with 1/6 in x and 1/96 in y and shifted by 0
    in x and -48 in y. *)
Theorem channel_geometry row s l s' :
  channel_loop row s = (Ok l, s') ->
  let idx := non_noise_channels row in
  is_x_channel l = map (fun i => localId_at row i >? 15) idx
  /\ x_weights l
     = map (fun i => if localId_at row i >? 15
                     then (1 / 96)%float else (1 / 6)%float) idx
  /\ y_weights l
     = map (fun i => if localId_at row i >? 15
                     then (1 / 6)%float else (1 / 96)%float) idx
  /\ x_positions l
     = map (fun i => (nth i (fXPosition row) 0
                      + (if localId_at row i >? 15 then -48 else 0))%float) idx
  /\ y_positions l
     = map (fun i => (nth i (fYPosition row) 0
                      + (if localId_at row i >? 15 then 0 else -48))%float) idx.
Proof.
  intros H. apply channel_loop_Ok in H. destruct H as (-> & _).
  unfold non_noise_channels, lists_over, empty_lists.
  cbn [is_x_channel x_weights y_weights x_positions y_positions app].
  repeat split; apply map_ext; intros i; unfold strip_of;
    destruct (localId_at row i >? 15); reflexivity.
Qed.

(** *** Noise tags *)

Lemma truth_spec_is_noise tag b : truth tag = Ok b -> spec_is_noise tag = b.
Proof.
  destruct tag as [v|[|v [|w vs]]]; simpl; intros H; inversion H; subst;
    try reflexivity.
  apply orb_false_r.
Qed.

Lemma channel_ok_truth row i :
  channel_ok row i = true -> exists b, truth (tag_at row i) = Ok b.
Proof.
  unfold channel_ok, tag_at.
  destruct (nth_error (fChannelLocalId row) i); [|discriminate].
  destruct (nth_error (fChannelNoiseTag row) i) as [tag|] eqn:E;
    [|discriminate].
  rewrite (nth_error_nth _ _ (TagScalar 0) E).
  destruct (truth tag) as [b|e]; [eauto|discriminate].
Qed.

Lemma channel_ok_noisy row i :
  channel_ok row i = true ->
  noisy (tag_at row i) = spec_is_noise (tag_at row i).
Proof.
  intros H. destruct (channel_ok_truth _ _ H) as (b & Hb).
  now rewrite (truth_noisy _ _ Hb), (truth_spec_is_noise _ _ Hb).
Qed.

Lemma channel_loop_reads row s l s' :
  channel_loop row s = (Ok l, s') ->
  forall i, In i (seq 0 (List.length (fChannelCharge row))) ->
            channel_ok row i = true.
Proof.
  intros H. apply channel_fold_Ok in H. destruct H as (Hok & _).
  now apply forallb_forall.
Qed.

Lemma non_noise_channels_spec row s l s' :
  channel_loop row s = (Ok l, s') ->
  non_noise_channels row
  = filter (fun i => negb (spec_is_noise (tag_at row i)))
           (seq 0 (List.length (fChannelCharge row))).
Proof.
  intros H. unfold non_noise_channels. apply filter_ext_in. intros i Hi.
  now rewrite (channel_ok_noisy _ _ (channel_loop_reads _ _ _ _ H i Hi)).
Qed.

(** C6, as the code has it: a scalar tag and a tag that is an array of
    one element are noise tags exactly when the element is nonzero; a tag
    that is an array of two or more elements has no truth value
    (ValueError).  When the channel loop returns, the noise flags are those
    of the tags, and the drift times, positions, weights and charges are
    those of the channels that are not noise, and of no other channel. *)
Theorem noise_classification :
  (forall v, truth (TagScalar v) = Ok (negb (v =? 0))
             /\ truth (TagArray [v]) = Ok (negb (v =? 0)))
  /\ (forall vs, (2 <= List.length vs)%nat ->
                 truth (TagArray vs) = Raise ValueError)
  /\ forall row s l s',
       channel_loop row s = (Ok l, s') ->
       let channels := seq 0 (List.length (fChannelCharge row)) in
       let idx :=
         filter (fun i => negb (spec_is_noise (tag_at row i))) channels in
       is_noise_channel l = map (fun i => spec_is_noise (tag_at row i)) channels
       /\ charge_weights l = map (fun i => nth i (fChannelCharge row) 0%float) idx
       /\ drift_times l
          = map2 (fun i j => (nth i (fChannelTime row) 0 + j)%float) idx
                 (fst (normal_size 0 2 (List.length idx) s))
       /\ List.length (x_positions l) = List.length idx
       /\ List.length (y_positions l) = List.length idx
       /\ List.length (x_weights l) = List.length idx
       /\ List.length (y_weights l) = List.length idx.
Proof.
  split; [split; reflexivity|]. split.
  - intros [|v [|w vs]] Hlen; simpl in Hlen; try lia. reflexivity.
  - intros row s l s' H. cbv zeta.
    rewrite <- (non_noise_channels_spec _ _ _ _ H).
    pose proof (channel_loop_reads _ _ _ _ H) as Hreads.
    apply channel_loop_Ok in H. destruct H as (-> & _).
    unfold lists_over, empty_lists.
    cbn [is_noise_channel charge_weights drift_times x_positions y_positions
         x_weights y_weights app].
    fold (non_noise_channels row). rewrite !length_map.
    repeat split.
    apply map_ext_in. intros i Hi. now apply channel_ok_noisy, Hreads.
Qed.

(** *** Events without a channel that is not noise *)

Lemma radius_all_noise row thr s o s' :
  process_event row thr s = (Ok o, s') ->
  non_noise_channels row = [] ->
  PrimFloat.is_nan (o_weighted_radius o) = true.
Proof.
  intros H Hnn. apply process_event_Ok in H.
  destruct H as (l & s1 & fl & Hl & _ & _ & ->).
  apply channel_loop_Ok in Hl. destruct Hl as (-> & _).
  unfold observables, lists_over, empty_lists.
  cbn [o_weighted_radius charge_weights x_weights y_weights x_positions
       y_positions app].
  fold (non_noise_channels row). rewrite Hnn. reflexivity.
Qed.

(** C1, as the code has it: an event with at least one channel, whose
    reads all succeed and none of whose channels is not noise, is processed
    without an exception and its weighted radius is NaN; in a returning
    run that is the entry of the event in weighted_radius. *)
Theorem all_noise_radius_nan :
  (forall row thr s,
     event_ok row = true -> non_noise_channels row = [] ->
     exists o s',
       process_event row thr s = (Ok o, s')
       /\ PrimFloat.is_nan (o_weighted_radius o) = true)
  /\ forall pre row post thr s out s',
       ComputeObservedCharge (pre ++ row :: post) thr s = (Ok out, s') ->
       non_noise_channels row = [] ->
       nth_error (map PrimFloat.is_nan (weighted_radius out)) (List.length pre)
       = Some true.
Proof.
  split.
  - intros row thr s Hok Hnn.
    pose proof (process_event_is_ok row thr s) as H. rewrite Hok in H.
    destruct (process_event row thr s) as [[o|e] s'] eqn:Ho;
      [|discriminate].
    exists o, s'. split; [reflexivity|].
    now apply (radius_all_noise _ _ _ _ _ Ho).
  - intros pre row post thr s out s' H Hnn. apply batch_event in H.
    destruct H as (st1 & s1 & o & s2 & _ & Ho & Hlen & ->).
    unfold extend_output. cbn [weighted_radius empty_output app].
    rewrite map_map, <- Hlen, nth_error_map_middle.
    now rewrite (radius_all_noise _ _ _ _ _ Ho Hnn).
Qed.

(** *** Arrays of different lengths *)

Lemma getitem_firstn {A} (a : list A) n i :
  (i < n)%nat -> getitem (firstn n a) i = getitem a i.
Proof.
  intros H. unfold getitem. rewrite nth_error_firstn.
  apply Nat.ltb_lt in H. now rewrite H.
Qed.

Lemma channel_body_truncate row l i s :
  (i < List.length (fChannelCharge row))%nat ->
  channel_body (truncate row) l i s = channel_body row l i s.
Proof.
  intros H. unfold channel_body, truncate.
  cbn [fChannelLocalId fChannelNoiseTag fChannelTime fXPosition fYPosition
       fChannelCharge].
  now rewrite !getitem_firstn.
Qed.

Lemma foldM_ext_in {A B} (f g : B -> A -> M B) l :
  (forall b x s, In x l -> f b x s = g b x s) ->
  forall b s, foldM f l b s = foldM g l b s.
Proof.
  induction l as [|x l IH]; intros Hfg b s; simpl; [reflexivity|].
  unfold bind. rewrite Hfg by now left.
  destruct (g b x s) as [[b'|e] s1]; [|reflexivity].
  apply IH. intros b0 x0 s0 Hin. apply Hfg. now right.
Qed.

(** Entries past the length of the charge array are never read. *)
Lemma process_event_truncate row thr s :
  process_event (truncate row) thr s = process_event row thr s.
Proof.
  unfold process_event.
  assert (forall s0, channel_loop (truncate row) s0 = channel_loop row s0)
    as Hloop.
  { intros s0. unfold channel_loop.
    change (fChannelCharge (truncate row)) with (fChannelCharge row).
    apply foldM_ext_in. intros b i s1 Hi.
    apply channel_body_truncate. apply in_seq in Hi. lia. }
  unfold bind. rewrite Hloop. reflexivity.
Qed.

Lemma events_loop_truncate thr l : forall st s,
  events_loop thr (map truncate l) st s = events_loop thr l st s.
Proof.
  unfold events_loop.
  induction l as [|row l IH]; intros st s; simpl; [reflexivity|].
  assert (event_body thr st (truncate row) s = event_body thr st row s)
    as Hbody.
  { unfold event_body.
    destruct ((fst st + 1) mod 100000 =? 0); [reflexivity|].
    unfold bind, ret. now rewrite process_event_truncate. }
  unfold bind. rewrite Hbody.
  destruct (event_body thr st row s) as [[st1|e] s1]; [apply IH|reflexivity].
Qed.

Lemma short_array_not_ok row :
  (List.length (fChannelLocalId row) < List.length (fChannelCharge row))%nat
  \/ (List.length (fChannelNoiseTag row) < List.length (fChannelCharge row))%nat ->
  event_ok row = false.
Proof.
  intros Hshort. unfold event_ok.
  destruct (forallb (channel_ok row)
              (seq 0 (List.length (fChannelCharge row)))) eqn:E;
    [|apply andb_false_r].
  exfalso. rewrite forallb_forall in E.
  destruct Hshort as [H|H].
  - specialize (E (List.length (fChannelLocalId row))).
    unfold channel_ok in E.
    rewrite (proj2 (nth_error_None _ _)) in E by lia.
    discriminate E. apply in_seq. lia.
  - specialize (E (List.length (fChannelNoiseTag row))).
    unfold channel_ok in E.
    rewrite (proj2 (nth_error_None (fChannelNoiseTag row) _)) in E by lia.
    destruct (nth_error (fChannelLocalId row) _); discriminate E;
      apply in_seq; lia.
Qed.

(** C4, as the code has it: an event whose local-id or noise-tag array is
    shorter than its charge array makes every batch that holds it end in
    an exception; entries of the other five arrays past the length of the
    charge array are never read, so a batch returns what it returns on the
    events cut to the length of their charge arrays. *)
Theorem mismatched_lengths :
  (forall dfelec thr s row,
     In row dfelec ->
     (List.length (fChannelLocalId row) < List.length (fChannelCharge row))%nat
     \/ (List.length (fChannelNoiseTag row)
         < List.length (fChannelCharge row))%nat ->
     is_ok (fst (ComputeObservedCharge dfelec thr s)) = false)
  /\ forall dfelec thr s,
       ComputeObservedCharge (map truncate dfelec) thr s
       = ComputeObservedCharge dfelec thr s.
Proof.
  split.
  - intros dfelec thr s row Hin Hshort.
    rewrite ComputeObservedCharge_is_ok.
    replace (forallb event_ok dfelec) with false; [reflexivity|].
    symmetry. apply not_true_is_false. intros Hall.
    rewrite forallb_forall in Hall. specialize (Hall row Hin).
    rewrite (short_array_not_ok row Hshort) in Hall. discriminate.
  - intros dfelec thr s. unfold ComputeObservedCharge, bind.
    now rewrite events_loop_truncate.
Qed.

(** *** The scenario of two channels *)

Lemma two_channel_event_ok x_id y_id :
  event_ok (two_channel_event x_id y_id) = true.
Proof. reflexivity. Qed.

(** C5, as the code has it: for the event of two channels that are not
    noise, of charge 5 and drift time 100 each, the weighted drift is the
    charge-weighted mean of the two jittered times 100 + j1 and 100 + j2,
    with j1 and j2 the two normal(0, 2) deviates drawn for the channels; it
    is 100 when both deviates are 0.  The local ids play no part. *)
Theorem two_channel_drift x_id y_id thr s :
  let j1 := fst (np_random_normal 0 2 s) in
  let j2 := fst (np_random_normal 0 2 (snd (np_random_normal 0 2 s))) in
  exists out s',
    ComputeObservedCharge [two_channel_event x_id y_id] thr s = (Ok out, s')
    /\ weighted_drift out
       = [(np_sum [(100 + j1) * 5; (100 + j2) * 5] / np_sum [5; 5])%float]
    /\ (j1 = 0%float -> j2 = 0%float -> weighted_drift out = [100%float]).
Proof.
  cbv zeta. rewrite ComputeObservedCharge_one.
  pose proof (process_event_is_ok (two_channel_event x_id y_id) thr s) as Hok.
  rewrite two_channel_event_ok in Hok.
  destruct (process_event (two_channel_event x_id y_id) thr s)
    as [[o|e] s'] eqn:Ho; [|discriminate].
  rewrite (bind_Ok _ _ _ _ _ Ho). exists (append_event empty_output o), s'.
  split; [reflexivity|].
  apply process_event_Ok in Ho.
  destruct Ho as (l & s1 & fl & Hl & _ & _ & ->).
  apply channel_loop_Ok in Hl. destruct Hl as (-> & _).
  destruct (np_random_normal 0 2 s) as [j1 sa] eqn:E1.
  cbn [fst snd].
  destruct (np_random_normal 0 2 sa) as [j2 sb] eqn:E2.
  cbn [fst snd].
  assert (weighted_drift
            (append_event empty_output
               (observables (two_channel_event x_id y_id) thr
                  (lists_over (two_channel_event x_id y_id) empty_lists
                     (seq 0 (List.length
                               (fChannelCharge (two_channel_event x_id y_id))))
                     (fst (normal_size 0 2
                             (List.length
                                (non_noise_channels
                                   (two_channel_event x_id y_id))) s)))
                  fl
                  (map negb
                     (is_noise_channel
                        (lists_over (two_channel_event x_id y_id) empty_lists
                           (seq 0 (List.length
                              (fChannelCharge (two_channel_event x_id y_id))))
                           (fst (normal_size 0 2
                                   (List.length
                                      (non_noise_channels
                                         (two_channel_event x_id y_id)))
                                   s)))))))
          = [(np_sum [(100 + j1) * 5; (100 + j2) * 5] / np_sum [5; 5])%float])
    as Hd.
  { cbn [two_channel_event fChannelCharge List.length seq non_noise_channels
         filter tag_at fChannelNoiseTag nth noisy truth Z.eqb negb
         normal_size].
    rewrite E1, E2. reflexivity. }
  split; [exact Hd|].
  intros -> ->. rewrite Hd. reflexivity.
Qed.

(** *** Further properties of the returned dictionary *)

Lemma ComputeObservedCharge_columns dfelec thr s out s' :
  ComputeObservedCharge dfelec thr s = (Ok out, s') ->
  out = extend_output empty_output (run_events thr dfelec s)
  /\ List.length (run_events thr dfelec s) = List.length dfelec.
Proof.
  intros H. apply ComputeObservedCharge_Ok in H. destruct H as (c & H).
  apply events_loop_Ok in H. exact H.
Qed.

Lemma run_events_map {B} thr (f : EventObs -> B) (F : Row -> B) :
  (forall row s o s', process_event row thr s = (Ok o, s') -> f o = F row) ->
  forall l s,
    List.length (run_events thr l s) = List.length l ->
    map f (run_events thr l s) = map F l.
Proof.
  intros HF. induction l as [|row l IH]; intros s Hlen; simpl in *.
  - reflexivity.
  - destruct (process_event row thr s) as [[o|e] s1] eqn:Ho; simpl in *.
    + rewrite (HF _ _ _ _ Ho). f_equal. apply IH. lia.
    + discriminate.
Qed.

Lemma Forall2_map_same {A B C} (R : B -> C -> Prop) (f : A -> B) (g : A -> C) l :
  Forall (fun x => R (f x) (g x)) l -> Forall2 R (map f l) (map g l).
Proof. induction 1; simpl; constructor; assumption. Qed.

Lemma np_count_bounds m : 0 <= np_count m <= Z.of_nat (List.length m).
Proof.
  induction m as [|b m IH]; [rewrite np_count_nil; simpl; lia|].
  rewrite np_count_cons. cbn [List.length]. rewrite Nat2Z.inj_succ.
  destruct b; lia.
Qed.

Lemma np_count_andb_le_l a : forall b,
  np_count (map2 andb a b) <= np_count a.
Proof.
  induction a as [|x a IH]; intros b.
  - cbn [map2]. lia.
  - destruct b as [|y b]; cbn [map2].
    + rewrite np_count_nil. apply np_count_bounds.
    + rewrite !np_count_cons. specialize (IH b).
      destruct x, y; cbn [andb]; lia.
Qed.

Lemma np_count_andb_le_r a : forall b,
  np_count (map2 andb a b) <= np_count b.
Proof.
  induction a as [|x a IH]; intros b.
  - cbn [map2]. rewrite np_count_nil. apply np_count_bounds.
  - destruct b as [|y b]; cbn [map2].
    + lia.
    + rewrite !np_count_cons. specialize (IH b).
      destruct x, y; cbn [andb]; lia.
Qed.

Lemma map2_andb_comm a : forall b, map2 andb a b = map2 andb b a.
Proof.
  induction a as [|x a IH]; intros [|y b]; simpl; try reflexivity.
  now rewrite IH, andb_comm.
Qed.

Lemma np_count_negb m :
  np_count (map negb m) + np_count m = Z.of_nat (List.length m).
Proof.
  induction m as [|b m IH]; [reflexivity|].
  cbn [map List.length]. rewrite !np_count_cons, Nat2Z.inj_succ.
  destruct b; cbn [negb]; lia.
Qed.

(** X1: every one of the thirteen arrays of the returned dictionary has one
    entry per input event. *)
Theorem output_lengths dfelec thr s out s' :
  ComputeObservedCharge dfelec thr s = (Ok out, s') ->
  let n := List.length dfelec in
  List.length (num_channels_in_evt out) = n
  /\ List.length (evt_charge_including_noise out) = n
  /\ List.length (evt_charge_excluding_noise out) = n
  /\ List.length (evt_charge_above_threshold out) = n
  /\ List.length (num_channels_above_threshold out) = n
  /\ List.length (num_channels_excluding_noise out) = n
  /\ List.length (num_channels_collection out) = n
  /\ List.length (num_collection_below_threshold out) = n
  /\ List.length (num_channels_induction out) = n
  /\ List.length (weighted_radius out) = n
  /\ List.length (weighted_drift out) = n
  /\ List.length (num_channels_nonzero_charge_with_noise out) = n
  /\ List.length (num_channels_nonzero_charge_excluding_noise out) = n.
Proof.
  intros H. apply ComputeObservedCharge_columns in H.
  destruct H as (-> & Hlen). unfold extend_output. simpl.
  rewrite !length_map, Hlen. repeat split.
Qed.

(** X2: num_channels_in_evt holds, in input order, the length of the charge
    array of each event. *)
Theorem channels_in_event dfelec thr s out s' :
  ComputeObservedCharge dfelec thr s = (Ok out, s') ->
  num_channels_in_evt out
  = map (fun row => Z.of_nat (List.length (fChannelCharge row))) dfelec.
Proof.
  intros H. apply ComputeObservedCharge_columns in H.
  destruct H as (-> & Hlen). unfold extend_output.
  cbn [num_channels_in_evt empty_output app].
  apply run_events_map; [|exact Hlen].
  intros row s0 o s1 Ho. apply process_event_Ok in Ho.
  destruct Ho as (l & s2 & fl & _ & _ & _ & ->). reflexivity.
Qed.

Lemma process_event_noise_count row thr s o s' :
  process_event row thr s = (Ok o, s') ->
  o_num_channels_excluding_noise o
  + np_count (map (fun i => spec_is_noise (tag_at row i))
                  (seq 0 (List.length (fChannelCharge row))))
  = o_num_channels_in_evt o.
Proof.
  intros Ho. apply process_event_Ok in Ho.
  destruct Ho as (l & s2 & fl & Hl & _ & _ & ->).
  unfold observables.
  cbn [o_num_channels_excluding_noise o_num_channels_in_evt].
  assert (is_noise_channel l
          = map (fun i => spec_is_noise (tag_at row i))
                (seq 0 (List.length (fChannelCharge row)))) as ->.
  { rewrite (is_noise_channel_loop _ _ _ _ Hl). apply map_ext_in.
    intros i Hi. apply channel_ok_noisy.
    now apply (channel_loop_reads _ _ _ _ Hl). }
  rewrite np_count_negb, length_map, length_seq. reflexivity.
Qed.

(** X3: for every event of a returning run, num_channels_in_evt is
    num_channels_excluding_noise plus the number of channels of the event
    whose noise tag is nonzero. *)
Theorem channels_in_event_split dfelec thr s out s' :
  ComputeObservedCharge dfelec thr s = (Ok out, s') ->
  map2 Z.add (num_channels_excluding_noise out)
       (map (fun row =>
               np_count (map (fun i => spec_is_noise (tag_at row i))
                             (seq 0 (List.length (fChannelCharge row)))))
            dfelec)
  = num_channels_in_evt out.
Proof.
  intros H. apply ComputeObservedCharge_columns in H.
  destruct H as (-> & Hlen). unfold extend_output.
  cbn [num_channels_in_evt num_channels_excluding_noise empty_output app].
  revert s Hlen. induction dfelec as [|row l IH]; intros s Hlen; simpl in *.
  - reflexivity.
  - destruct (process_event row thr s) as [[o|e] s1] eqn:Ho; simpl in *;
      [|discriminate].
    rewrite (process_event_noise_count _ _ _ _ _ Ho). f_equal.
    apply IH. lia.
Qed.

Lemma run_events_Forall2 thr (R : Z -> Z -> Prop) (f g : EventObs -> Z) :
  (forall row s o s', process_event row thr s = (Ok o, s') -> R (f o) (g o)) ->
  forall l s, Forall2 R (map f (run_events thr l s)) (map g (run_events thr l s)).
Proof.
  intros HR l s. apply Forall2_map_same.
  apply (run_events_Forall thr (fun o => R (f o) (g o))). exact HR.
Qed.

(** X4: in the returned dictionary num_channels_nonzero_charge_excluding_noise
    and num_channels_collection are the same array. *)
Theorem nonzero_excluding_noise_is_collection dfelec thr s out s' :
  ComputeObservedCharge dfelec thr s = (Ok out, s') ->
  num_channels_nonzero_charge_excluding_noise out = num_channels_collection out.
Proof.
  intros H. apply ComputeObservedCharge_columns in H.
  destruct H as (-> & _). unfold extend_output.
  cbn [num_channels_nonzero_charge_excluding_noise num_channels_collection
       empty_output app].
  apply map_ext_in. intros o Ho.
  pose proof (run_events_Forall thr
                (fun o => o_num_channels_nonzero_charge_excluding_noise o
                          = o_num_channels_collection o)) as HF.
  assert (Forall (fun o => o_num_channels_nonzero_charge_excluding_noise o
                           = o_num_channels_collection o)
                 (run_events thr dfelec s)) as Hall.
  { apply HF. intros row s0 o0 s1 H0. apply process_event_Ok in H0.
    destruct H0 as (l & s2 & fl & _ & _ & _ & ->). unfold observables.
    cbn [o_num_channels_nonzero_charge_excluding_noise
         o_num_channels_collection].
    now rewrite map2_andb_comm. }
  rewrite Forall_forall in Hall. now apply Hall.
Qed.

(** X5: entry by entry, the channel counts of a returning run are ordered:
    0 <= num_collection_below_threshold <= num_channels_collection
    <= num_channels_excluding_noise <= num_channels_in_evt, and
    0 <= num_channels_above_threshold <= num_channels_excluding_noise, and
    num_channels_collection <= num_channels_nonzero_charge_with_noise
    <= num_channels_in_evt. *)
Theorem channel_counts_ordered dfelec thr s out s' :
  ComputeObservedCharge dfelec thr s = (Ok out, s') ->
  Forall (fun n => 0 <= n) (num_collection_below_threshold out)
  /\ Forall2 Z.le (num_collection_below_threshold out)
                  (num_channels_collection out)
  /\ Forall2 Z.le (num_channels_collection out)
                  (num_channels_excluding_noise out)
  /\ Forall2 Z.le (num_channels_excluding_noise out) (num_channels_in_evt out)
  /\ Forall (fun n => 0 <= n) (num_channels_above_threshold out)
  /\ Forall2 Z.le (num_channels_above_threshold out)
                  (num_channels_excluding_noise out)
  /\ Forall2 Z.le (num_channels_collection out)
                  (num_channels_nonzero_charge_with_noise out)
  /\ Forall2 Z.le (num_channels_nonzero_charge_with_noise out)
                  (num_channels_in_evt out).
Proof.
  intros H. apply ComputeObservedCharge_columns in H.
  destruct H as (-> & _). unfold extend_output.
  cbn [num_collection_below_threshold num_channels_collection
       num_channels_excluding_noise num_channels_in_evt
       num_channels_above_threshold num_channels_nonzero_charge_with_noise
       empty_output app].
  repeat split;
    try (apply Forall_map;
         apply (run_events_Forall thr (fun o => 0 <= _ o)));
    try apply run_events_Forall2;
    intros row s0 o s1 Ho;
    pose proof (length_is_noise_channel row s0) as Hlen;
    apply process_event_Ok in Ho;
    destruct Ho as (l & s2 & fl & Hl & _ & _ & ->);
    specialize (Hlen _ _ Hl); unfold observables;
    cbn [o_num_collection_below_threshold o_num_channels_collection
         o_num_channels_excluding_noise o_num_channels_in_evt
         o_num_channels_above_threshold
         o_num_channels_nonzero_charge_with_noise].
  - apply np_count_bounds.
  - apply np_count_andb_le_l.
  - apply np_count_andb_le_l.
  - pose proof (np_count_bounds (map negb (is_noise_channel l))) as Hb.
    rewrite length_map, Hlen in Hb. lia.
  - apply np_count_bounds.
  - apply np_count_andb_le_r.
  - apply np_count_andb_le_r.
  - pose proof (np_count_bounds
                  (map (fun q => negb (q =? 0)%float) (fChannelCharge row)))
      as Hb.
    rewrite length_map in Hb. lia.
Qed.

(** *** When the run returns, and what it raises *)

(** X6: [ComputeObservedCharge] returns its dictionary exactly when the
    input has fewer than 100000 events and every event has at least one
    channel and no read of its channel loop fails (the local id and the
    tag of every channel exist, the tag has a truth value, and the time and
    the position exist for every channel that is not noise). *)
Theorem ComputeObservedCharge_returns_iff dfelec thr s :
  (exists out s', ComputeObservedCharge dfelec thr s = (Ok out, s'))
  <-> (Z.of_nat (List.length dfelec) < 100000
       /\ Forall (fun row => event_ok row = true) dfelec).
Proof.
  pose proof (ComputeObservedCharge_is_ok dfelec thr s) as H.
  split.
  - intros (out & s' & Hrun). rewrite Hrun in H. simpl in H.
    symmetry in H. apply andb_true_iff in H. destruct H as (Hall & Hlt).
    split; [now apply Z.ltb_lt|].
    apply Forall_forall. now apply forallb_forall.
  - intros (Hlt & Hall).
    assert (forallb event_ok dfelec = true) as Hb
      by (apply forallb_forall; now apply Forall_forall).
    rewrite Hb, (proj2 (Z.ltb_lt _ _) Hlt) in H.
    destruct (ComputeObservedCharge dfelec thr s) as [[out|e] s'];
      [eauto|discriminate].
Qed.

(** X7: on an input without events [ComputeObservedCharge] returns thirteen
    empty arrays and draws nothing from the generator. *)
Theorem ComputeObservedCharge_no_events thr s :
  ComputeObservedCharge [] thr s = (Ok empty_output, s).
Proof. reflexivity. Qed.

Lemma process_event_no_channel row thr s :
  fChannelCharge row = [] ->
  process_event row thr s = (Raise TypeError, s).
Proof.
  intros H. unfold process_event, channel_loop, fluctuate, bind.
  rewrite H. reflexivity.
Qed.

(** X8: an event without a channel ends the run in TypeError (the
    [np.invert] of line 116 on the empty list of noise flags), with the
    generator in the state the events before it left it in. *)
Theorem no_channel_type_error thr pre row post s st s1 :
  events_loop thr pre (0, empty_output) s = (Ok st, s1) ->
  Z.of_nat (List.length pre) < 99999 ->
  fChannelCharge row = [] ->
  ComputeObservedCharge (pre ++ row :: post) thr s = (Raise TypeError, s1).
Proof.
  intros Hpre Hlt Hrow.
  pose proof (events_loop_counter _ _ _ _ _ _ Hpre) as Hc. simpl fst in Hc.
  unfold ComputeObservedCharge, events_loop. unfold bind at 1.
  rewrite foldM_app. unfold events_loop in Hpre.
  rewrite (bind_Ok _ _ _ _ _ Hpre). cbn [foldM]. unfold bind at 1.
  rewrite event_body_quiet by (rewrite Hc, Z.mod_small; lia).
  unfold bind at 1. now rewrite (process_event_no_channel _ _ _ Hrow).
Qed.

(** X9: a returning event draws, in this order, one normal(0, 2) deviate
    for each of its channels that is not noise and then one normal(0, 600)
    deviate for each of its channels, and nothing else. *)
Theorem process_event_draws row thr s o s' :
  process_event row thr s = (Ok o, s') ->
  let nch := List.length (fChannelCharge row) in
  let kept :=
    filter (fun i => negb (spec_is_noise (tag_at row i))) (seq 0 nch) in
  s' = snd (normal_size 0 600 nch
              (snd (normal_size 0 2 (List.length kept) s))).
Proof.
  intros Ho. cbv zeta. apply process_event_Ok in Ho.
  destruct Ho as (l & s1 & fl & Hl & Hfl & _ & _).
  rewrite <- (non_noise_channels_spec _ _ _ _ Hl).
  apply channel_loop_Ok in Hl. destruct Hl as (_ & ->).
  unfold fluctuate in Hfl.
  destruct (normal_size 0 600 (List.length (fChannelCharge row))
              (snd (normal_size 0 2 (List.length (non_noise_channels row)) s)))
    as [noise s2].
  now inversion Hfl.
Qed.

(** *** The threshold *)

Lemma length_normal_size loc scale n : forall s,
  List.length (fst (normal_size loc scale n s)) = n.
Proof.
  induction n as [|n IH]; intros s; simpl; [reflexivity|].
  destruct (np_random_normal loc scale s) as [x s1].
  specialize (IH s1). destruct (normal_size loc scale n s1) as [xs s2].
  simpl in *. now rewrite IH.
Qed.

Lemma length_map2 {A B C} (f : A -> B -> C) a : forall b,
  List.length a = List.length b -> List.length (map2 f a b) = List.length a.
Proof.
  induction a as [|x a IH]; intros [|y b] H; simpl in *; try discriminate;
    [reflexivity|]. now rewrite IH by lia.
Qed.

Lemma length_fluctuate row s fl s' :
  fluctuate row s = (Ok fl, s') ->
  List.length fl = List.length (fChannelCharge row).
Proof.
  unfold fluctuate. intros H.
  pose proof (length_normal_size 0 600 (List.length (fChannelCharge row)) s)
    as Hlen.
  destruct (normal_size 0 600 (List.length (fChannelCharge row)) s)
    as [noise s2].
  simpl in Hlen. inversion H; subst. now rewrite length_map2.
Qed.

Lemma map2_andb_true_l m : forall nn,
  Forall (fun b => b = true) m -> List.length m = List.length nn ->
  map2 andb m nn = nn.
Proof.
  induction m as [|a m IH]; intros [|b nn] Hm Hlen; simpl in *;
    try discriminate; [reflexivity|].
  inversion Hm; subst. simpl. f_equal. apply IH; [assumption|lia].
Qed.

Lemma map2_andb_false_r m : forall nn,
  Forall (fun b => b = false) nn ->
  Forall (fun b => b = false) (map2 andb m nn).
Proof.
  intros nn H. rewrite map2_andb_comm. now apply map2_andb_false_l.
Qed.

Lemma observables_above_threshold row thr l fl nn :
  Forall (fun f => (thr <? f)%float = true) fl ->
  List.length fl = List.length nn ->
  o_num_channels_above_threshold (observables row thr l fl nn) = np_count nn
  /\ o_num_collection_below_threshold (observables row thr l fl nn) = 0
  /\ o_evt_charge_above_threshold (observables row thr l fl nn)
     = np_sum (select fl nn).
Proof.
  intros Hfl Hlen. unfold observables.
  cbn [o_num_channels_above_threshold o_num_collection_below_threshold
       o_evt_charge_above_threshold].
  assert (Forall (fun b => b = true) (map (fun f => (thr <? f)%float) fl))
    as Hmask by (apply Forall_map; exact Hfl).
  rewrite (map2_andb_true_l _ nn Hmask) by now rewrite length_map.
  repeat split.
  apply np_count_all_false, map2_andb_false_r.
  rewrite map_map. apply Forall_map.
  eapply Forall_impl; [|exact Hfl]. intros f Hf. now rewrite Hf.
Qed.

(** X10: when the threshold is strictly below every fluctuated charge of
    an event (as with the default of -100000 unless a charge fluctuates below
    it), the run returns for that event num_channels_above_threshold equal
    to num_channels_excluding_noise and num_collection_below_threshold
    equal to 0. *)
Theorem threshold_below_all_charges thr pre row post s out s' :
  ComputeObservedCharge (pre ++ row :: post) thr s = (Ok out, s') ->
  Forall (fun f => (thr <? f)%float = true)
         (event_fluctuated_charge thr pre row s) ->
  nth_error (num_channels_above_threshold out) (List.length pre)
  = nth_error (num_channels_excluding_noise out) (List.length pre)
  /\ nth_error (num_collection_below_threshold out) (List.length pre)
     = Some 0.
Proof.
  intros H Habove. apply batch_event in H.
  destruct H as (st1 & s1 & o & s2 & Hpre & Ho & Hlen & ->).
  apply process_event_Ok in Ho.
  destruct Ho as (l & s1' & fl & Hl & Hfl & _ & ->).
  unfold event_fluctuated_charge in Habove.
  rewrite Hpre, Hl, Hfl in Habove.
  assert (List.length fl = List.length (map negb (is_noise_channel l)))
    as Hfln.
  { rewrite length_map, (length_fluctuate _ _ _ _ Hfl).
    symmetry. now apply (length_is_noise_channel _ _ _ _ Hl). }
  destruct (observables_above_threshold row thr l fl _ Habove Hfln)
    as (Hn & Hb & _).
  unfold extend_output.
  cbn [num_channels_above_threshold num_channels_excluding_noise
       num_collection_below_threshold empty_output app].
  rewrite <- Hlen, !nth_error_map_middle. rewrite Hn, Hb.
  split; reflexivity.
Qed.

Lemma process_event_threshold {B} (f : EventObs -> B) thr1 thr2 row s :
  (forall l fl nn,
     f (observables row thr1 l fl nn) = f (observables row thr2 l fl nn)) ->
  match process_event row thr1 s, process_event row thr2 s with
  | (Ok o1, s1), (Ok o2, s2) => s1 = s2 /\ f o1 = f o2
  | (Raise e1, s1), (Raise e2, s2) => e1 = e2 /\ s1 = s2
  | _, _ => False
  end.
Proof.
  intros Hf. unfold process_event, bind.
  destruct (channel_loop row s) as [[l|e] s1]; [|split; reflexivity].
  destruct (fluctuate row s1) as [[fl|e] s2]; [|split; reflexivity].
  unfold lift, ret.
  destruct (np_invert_list (is_noise_channel l)) as [nn|e];
    [|split; reflexivity].
  split; [reflexivity|apply Hf].
Qed.

Lemma events_loop_cons thr row l st s :
  events_loop thr (row :: l) st s
  = match event_body thr st row s with
    | (Ok st', s') => events_loop thr l st' s'
    | (Raise e, s') => (Raise e, s')
    end.
Proof. reflexivity. Qed.

Lemma events_loop_threshold {B} (f : EventObs -> B) thr1 thr2 :
  (forall row l fl nn,
     f (observables row thr1 l fl nn) = f (observables row thr2 l fl nn)) ->
  forall l st1 st2 s,
    fst st1 = fst st2 ->
    match events_loop thr1 l st1 s, events_loop thr2 l st2 s with
    | (Ok _, s1), (Ok _, s2) =>
        s1 = s2 /\ map f (run_events thr1 l s) = map f (run_events thr2 l s)
    | (Raise e1, s1), (Raise e2, s2) => e1 = e2 /\ s1 = s2
    | _, _ => False
    end.
Proof.
  intros Hf.
  induction l as [|row l IH]; intros st1 st2 s Hc.
  - split; reflexivity.
  - rewrite !events_loop_cons. cbn [run_events].
    destruct (Z.eq_dec ((fst st1 + 1) mod 100000) 0) as [E|E].
    + rewrite (event_body_report thr1 st1 row s E).
      rewrite Hc in E. rewrite (event_body_report thr2 st2 row s E).
      split; reflexivity.
    + rewrite (event_body_quiet thr1 st1 row s E).
      rewrite Hc in E. rewrite (event_body_quiet thr2 st2 row s E).
      unfold bind, ret.
      pose proof (process_event_threshold f thr1 thr2 row s (Hf row)) as Hp.
      destruct (process_event row thr1 s) as [[o1|e1] s1],
               (process_event row thr2 s) as [[o2|e2] s2];
        try contradiction; [|exact Hp].
      destruct Hp as (<- & Ho).
      specialize (IH (fst st1 + 1, append_event (snd st1) o1)
                     (fst st2 + 1, append_event (snd st2) o2) s1).
      cbn [fst] in IH. specialize (IH ltac:(lia)).
      destruct (events_loop thr1 l _ s1) as [[a|ea] sa],
               (events_loop thr2 l _ s1) as [[b|eb] sb];
        try contradiction; [|exact IH].
      destruct IH as (-> & IH). split; [reflexivity|].
      cbn [map]. now rewrite Ho, IH.
Qed.

Lemma column_threshold {B} (f : EventObs -> B) thr1 thr2 dfelec s
    st1 s1 st2 s2 :
  (forall row l fl nn,
     f (observables row thr1 l fl nn) = f (observables row thr2 l fl nn)) ->
  events_loop thr1 dfelec (0, empty_output) s = (Ok st1, s1) ->
  events_loop thr2 dfelec (0, empty_output) s = (Ok st2, s2) ->
  map f (run_events thr1 dfelec s) = map f (run_events thr2 dfelec s).
Proof.
  intros Hf H1 H2.
  pose proof (events_loop_threshold f thr1 thr2 Hf dfelec
                (0, empty_output) (0, empty_output) s eq_refl) as H.
  rewrite H1, H2 in H. apply H.
Qed.

(** X11: the threshold decides nothing but the three threshold arrays.  Two
    runs on the same input from the same generator state with different
    thresholds end alike (both return, or both raise the same exception)
    and leave the generator in the same state; when they return, the ten
    arrays other than evt_charge_above_threshold,
    num_channels_above_threshold and num_collection_below_threshold are
    equal. *)
Theorem threshold_changes_threshold_arrays_only dfelec thr1 thr2 s :
  match ComputeObservedCharge dfelec thr1 s,
        ComputeObservedCharge dfelec thr2 s with
  | (Ok out1, s1), (Ok out2, s2) =>
      s1 = s2
      /\ num_channels_in_evt out1 = num_channels_in_evt out2
      /\ evt_charge_including_noise out1 = evt_charge_including_noise out2
      /\ evt_charge_excluding_noise out1 = evt_charge_excluding_noise out2
      /\ num_channels_excluding_noise out1 = num_channels_excluding_noise out2
      /\ num_channels_collection out1 = num_channels_collection out2
      /\ num_channels_induction out1 = num_channels_induction out2
      /\ weighted_radius out1 = weighted_radius out2
      /\ weighted_drift out1 = weighted_drift out2
      /\ num_channels_nonzero_charge_with_noise out1
         = num_channels_nonzero_charge_with_noise out2
      /\ num_channels_nonzero_charge_excluding_noise out1
         = num_channels_nonzero_charge_excluding_noise out2
  | (Raise e1, s1), (Raise e2, s2) => e1 = e2 /\ s1 = s2
  | _, _ => False
  end.
Proof.
  pose proof (events_loop_threshold o_num_channels_in_evt thr1 thr2
                (fun _ _ _ _ => eq_refl) dfelec
                (0, empty_output) (0, empty_output) s eq_refl) as H.
  unfold ComputeObservedCharge, bind, ret.
  destruct (events_loop thr1 dfelec (0, empty_output) s)
    as [[st1|e1] s1] eqn:H1,
           (events_loop thr2 dfelec (0, empty_output) s)
    as [[st2|e2] s2] eqn:H2; try contradiction; [|exact H].
  destruct H as (Hs & _). split; [exact Hs|].
  destruct (events_loop_Ok _ _ _ _ _ _ H1) as (-> & _).
  destruct (events_loop_Ok _ _ _ _ _ _ H2) as (-> & _).
  unfold extend_output. cbn -[run_events].
  repeat split;
    apply (fun f Hf => column_threshold f thr1 thr2 dfelec s _ _ _ _ Hf H1 H2);
    intros; reflexivity.
Qed.

(** *** The light yield *)

Lemma length_binomial_each p ns : forall s,
  List.length (fst (binomial_each ns p s)) = List.length ns.
Proof.
  induction ns as [|n ns IH]; intros s; simpl; [reflexivity|].
  destruct (np_random_binomial n p s) as [k s1]. specialize (IH s1).
  destruct (binomial_each ns p s1) as [ks s2]. simpl in *. now rewrite IH.
Qed.

Lemma length_poisson_each lams : forall s,
  List.length (fst (poisson_each lams s)) = List.length lams.
Proof.
  induction lams as [|lam lams IH]; intros s; simpl; [reflexivity|].
  destruct (np_random_poisson lam s) as [k s1]. specialize (IH s1).
  destruct (poisson_each lams s1) as [ks s2]. simpl in *. now rewrite IH.
Qed.

(** X12: a call of [ComputeObservedLight] that returns, returns one
    photoelectron count per entry of fInitNOP. *)
Theorem ComputeObservedLight_length fInitNOP s detected_photoelectrons s' :
  ComputeObservedLight fInitNOP s = (Ok detected_photoelectrons, s') ->
  List.length detected_photoelectrons = List.length fInitNOP.
Proof.
  unfold ComputeObservedLight.
  destruct (existsb (fun n => n <? 0) fInitNOP); [discriminate|].
  pose proof (length_binomial_each 0.03%float fInitNOP s) as Hb.
  destruct (binomial_each fInitNOP 0.03%float s) as [detected_photons s1].
  destruct (existsb _ (map _ detected_photons)); [discriminate|].
  pose proof (length_poisson_each
                (map (fun k => (float_of_int64 k * 0.2)%float) detected_photons)
                s1) as Hp.
  destruct (poisson_each _ s1) as [smearing s2]. simpl in *.
  intros H. inversion H; subst.
  rewrite length_map in Hp. rewrite length_map2; lia.
Qed.

Lemma some_negative_count ns :
  Exists (fun n => n < 0) ns -> existsb (fun n => n <? 0) ns = true.
Proof.
  induction 1 as [n ns Hn|n ns _ IH]; simpl.
  - destruct (Z.ltb_spec n 0); [reflexivity|lia].
  - rewrite IH. apply orb_true_r.
Qed.


(** X17: with count samplers that have their property [binomial_support],
    [ComputeObservedLight] returns exactly on the arrays without a negative
    entry. *)
Theorem ComputeObservedLight_returns_iff fInitNOP s :
  is_ok (fst (ComputeObservedLight fInitNOP s)) = true
  <-> Forall (fun n => 0 <= n) fInitNOP.
Proof.
  split.
  - intros H. apply Forall_forall. intros n Hn.
    destruct (Z.le_gt_cases 0 n) as [Hle|Hlt]; [exact Hle|].
    assert (Exists (fun n => n < 0) fInitNOP) as Hex
      by (apply Exists_exists; exists n; split; [exact Hn|lia]).
    unfold ComputeObservedLight in H.
    rewrite (some_negative_count _ Hex) in H. discriminate.
  - intros Hpos. unfold ComputeObservedLight.
    rewrite (no_negative_count _ Hpos).
    pose proof (binomial_each_not_negative 0.03%float fInitNOP s Hpos) as Hdp.
    destruct (binomial_each fInitNOP 0.03%float s) as [detected_photons s1].
    simpl in Hdp. rewrite (no_negative_rate _ Hdp).
    destruct (poisson_each _ s1) as [smearing s2]. reflexivity.
Qed.

(** *** A local-id array that ends early *)

Lemma channel_body_no_local_id row l i s :
  (List.length (fChannelLocalId row) <= i)%nat ->
  channel_body row l i s = (Raise IndexError, s).
Proof.
  intros H. unfold channel_body, bind, lift.
  now rewrite (getitem_ge _ _ H).
Qed.

(** X13: an event whose local-id array is shorter than its charge array,
    and whose channels before the end of the local-id array are read
    without an exception, raises IndexError. *)
Theorem short_local_id_index_error row thr s :
  (List.length (fChannelLocalId row) < List.length (fChannelCharge row))%nat ->
  forallb (channel_ok row) (seq 0 (List.length (fChannelLocalId row))) = true ->
  exists s1, process_event row thr s = (Raise IndexError, s1).
Proof.
  intros Hlt Hok.
  set (k := List.length (fChannelLocalId row)) in *.
  assert (List.length (fChannelCharge row)
          = (k + S (List.length (fChannelCharge row) - S k))%nat) as Hn by lia.
  unfold process_event, channel_loop. rewrite Hn, seq_app.
  pose proof (channel_fold_is_ok row (seq 0 k) empty_lists s) as Hpre.
  rewrite Hok in Hpre.
  destruct (foldM (channel_body row) (seq 0 k) empty_lists s)
    as [[l1|e] s1] eqn:Hfold.
  - exists s1. unfold bind at 1. rewrite foldM_app.
    rewrite (bind_Ok _ _ _ _ _ Hfold). cbn [seq foldM Nat.add].
    unfold bind at 1.
    rewrite channel_body_no_local_id by (unfold k; lia). reflexivity.
  - simpl in Hpre. discriminate Hpre.
    apply Forall_forall. intros i Hi. apply in_seq in Hi. lia.
Qed.

(** *** The driver's cuts on the returned values *)

Lemma drift_all_noise row thr s o s' :
  process_event row thr s = (Ok o, s') ->
  non_noise_channels row = [] ->
  o_weighted_drift o = PrimFloat.nan.
Proof.
  intros H Hnn. apply process_event_Ok in H.
  destruct H as (l & s1 & fl & Hl & _ & _ & ->).
  apply channel_loop_Ok in Hl. destruct Hl as (-> & _).
  unfold observables, lists_over, empty_lists.
  cbn [o_weighted_drift charge_weights drift_times app].
  fold (non_noise_channels row). rewrite Hnn. reflexivity.
Qed.

(** X14: an event none of whose channels is not noise fails the cuts of
    the driver, whatever its light, its other values and the standoff: its
    weighted drift is NaN, so its z is NaN. *)
Theorem all_noise_event_is_cut pre row post thr s out s' :
  ComputeObservedCharge (pre ++ row :: post) thr s = (Ok out, s') ->
  non_noise_channels row = [] ->
  exists drift,
    nth_error (weighted_drift out) (List.length pre) = Some drift
    /\ forall standoff charge light radius,
         event_cuts standoff charge light drift radius = false.
Proof.
  intros H Hnn. apply batch_event in H.
  destruct H as (st1 & s1 & o & s2 & _ & Ho & Hlen & ->).
  exists (o_weighted_drift o). split.
  - unfold extend_output. cbn [weighted_drift empty_output app].
    now rewrite <- Hlen, nth_error_map_middle.
  - intros standoff charge light radius.
    rewrite (drift_all_noise _ _ _ _ _ Ho Hnn). unfold event_cuts.
    change (PrimFloat.is_nan (z_of_drift PrimFloat.nan)) with true.
    cbn [negb]. now rewrite andb_false_r.
Qed.

Lemma charge_all_zero row thr s o s' :
  process_event row thr s = (Ok o, s') ->
  Forall (fun q => (q =? 0)%float = true) (fChannelCharge row) ->
  o_evt_charge_including_noise o = 0%float
  /\ o_num_channels_collection o = 0.
Proof.
  intros H Hzero. apply process_event_Ok in H.
  destruct H as (l & s1 & fl & _ & _ & _ & ->). unfold observables.
  cbn [o_evt_charge_including_noise o_num_channels_collection].
  assert (Forall (fun b => b = false)
            (map (fun q => negb (q =? 0)%float) (fChannelCharge row))) as Hm.
  { apply Forall_map. eapply Forall_impl; [|exact Hzero].
    intros q Hq. now rewrite Hq. }
  split.
  - now rewrite select_all_false.
  - now apply np_count_all_false, map2_andb_false_r.
Qed.

(** X15: an event all of whose channels have charge 0 gets
    evt_charge_including_noise = 0.0 and no collection channel, and fails
    the first cut of the driver, whatever its other values and the
    standoff. *)
Theorem zero_charge_event_is_cut pre row post thr s out s' :
  ComputeObservedCharge (pre ++ row :: post) thr s = (Ok out, s') ->
  Forall (fun q => (q =? 0)%float = true) (fChannelCharge row) ->
  nth_error (evt_charge_including_noise out) (List.length pre) = Some 0%float
  /\ nth_error (num_channels_collection out) (List.length pre) = Some 0
  /\ forall standoff light drift radius,
       event_cuts standoff 0 light drift radius = false.
Proof.
  intros H Hzero. apply batch_event in H.
  destruct H as (st1 & s1 & o & s2 & _ & Ho & Hlen & ->).
  destruct (charge_all_zero _ _ _ _ _ Ho Hzero) as (Hq & Hc).
  unfold extend_output.
  cbn [evt_charge_including_noise num_channels_collection empty_output app].
  rewrite <- Hlen, !nth_error_map_middle, Hq, Hc.
  repeat split.
Qed.

End Extractor.

(** ** Two runs of the extractor *)

Section Simulation.

(** Two generators, with their seeding and their samplers, and a relation
    between their states: seeding both with one seed gives related states,
    and on related states the samplers deliver the same draw and leave
    related states. *)
Variables rng1 rng2 : Type.
Variable R : rng1 -> rng2 -> Prop.
Variable seed1 : Z -> rng1.
Variable seed2 : Z -> rng2.
Variable binomial1 : Z -> float -> rng1 -> Z * rng1.
Variable binomial2 : Z -> float -> rng2 -> Z * rng2.
Variable poisson1 : float -> rng1 -> Z * rng1.
Variable poisson2 : float -> rng2 -> Z * rng2.
Variable normal1 : float -> float -> rng1 -> float * rng1.
Variable normal2 : float -> float -> rng2 -> float * rng2.

Hypothesis seed_related : forall seed, R (seed1 seed) (seed2 seed).
Hypothesis binomial_related : forall n p s t, R s t ->
  fst (binomial1 n p s) = fst (binomial2 n p t)
  /\ R (snd (binomial1 n p s)) (snd (binomial2 n p t)).
Hypothesis poisson_related : forall lam s t, R s t ->
  fst (poisson1 lam s) = fst (poisson2 lam t)
  /\ R (snd (poisson1 lam s)) (snd (poisson2 lam t)).
Hypothesis normal_related : forall loc scale s t, R s t ->
  fst (normal1 loc scale s) = fst (normal2 loc scale t)
  /\ R (snd (normal1 loc scale s)) (snd (normal2 loc scale t)).



















End Simulation.

(** ** Runs on the scripted generator *)

Lemma tape_binomial_support n p s :
  0 <= n -> 0 <= fst (tape_binomial n p s) <= n.
Proof.
  intros Hn. unfold tape_binomial. destruct (count_tape s); simpl; lia.
Qed.

Lemma tape_poisson_zero s : fst (tape_poisson 0%float s) = 0.
Proof. unfold tape_poisson. destruct (count_tape s); reflexivity. Qed.

(** The two-channel event on the generator of unit deviates. *)
Lemma channel_geometry_witness :
  exists l s',
    channel_loop Tape tape_normal (two_channel_event 16 0) unit_tape
    = (Ok l, s')
    /\ is_x_channel l = [true; false]
    /\ x_weights l = [(1 / 96)%float; (1 / 6)%float]
    /\ y_weights l = [(1 / 6)%float; (1 / 96)%float]
    /\ x_positions l = [(10 + -48)%float; (0 + 0)%float]
    /\ y_positions l = [(0 + 0)%float; (10 + -48)%float].
Proof.
  eexists. eexists. split; [reflexivity|].
  exact (channel_geometry Tape tape_normal (two_channel_event 16 0)
           unit_tape _ _ eq_refl).
Defined.

(** Three events: two collection channels, one induction channel, one
    noise channel. *)
Lemma collection_plus_induction_witness :
  exists out s',
    ComputeObservedCharge Tape tape_normal
      [two_channel_event 16 0; induction_event; noise_event]
      default_channel_threshold unit_tape = (Ok out, s')
    /\ num_channels_collection out = [2; 0; 0]
    /\ num_channels_induction out = [0; 1; 0]
    /\ map2 Z.add (num_channels_collection out) (num_channels_induction out)
       = num_channels_excluding_noise out.
Proof.
  eexists. eexists. split; [reflexivity|].
  split; [reflexivity|]. split; [reflexivity|].
  exact (proj1 (collection_plus_induction Tape tape_normal
                  [two_channel_event 16 0; induction_event; noise_event]
                  default_channel_threshold unit_tape _ _ eq_refl)).
Defined.

(** A threshold of 100000 over fluctuated charges of 605. *)
Lemma threshold_above_all_charges_witness :
  exists out s',
    ComputeObservedCharge Tape tape_normal
      ([noise_event] ++ two_channel_event 16 0 :: [induction_event])
      100000%float unit_tape = (Ok out, s')
    /\ event_fluctuated_charge Tape tape_normal 100000%float
         [noise_event] (two_channel_event 16 0) unit_tape
       = [605; 605]%float
    /\ nth_error (num_channels_above_threshold out) 1 = Some 0
    /\ nth_error (evt_charge_above_threshold out) 1 = Some 0%float.
Proof.
  eexists. eexists. split; [reflexivity|]. split; [reflexivity|].
  apply (threshold_above_all_charges Tape tape_normal 100000%float
           [noise_event] (two_channel_event 16 0) [induction_event]
           unit_tape _ _ eq_refl).
  repeat constructor.
Defined.

(** Three events, the second of which has no initial photon. *)
Lemma no_photons_no_photoelectrons_witness :
  Forall (fun n => 0 <= n) [1000; 0; 50]
  /\ nth_error [1000; 0; 50] 1 = Some 0
  /\ fst (ComputeObservedLight Tape tape_binomial tape_poisson
            [1000; 0; 50] unit_tape) = Ok [7; 0; 12]
  /\ exists detected_photoelectrons s',
       ComputeObservedLight Tape tape_binomial tape_poisson
         [1000; 0; 50] unit_tape = (Ok detected_photoelectrons, s')
       /\ nth_error detected_photoelectrons 1 = Some 0.
Proof.
  assert (Forall (fun n => 0 <= n) [1000; 0; 50]) as Hpos
    by (repeat constructor; lia).
  split; [exact Hpos|]. split; [reflexivity|]. split; [reflexivity|].
  apply (no_photons_no_photoelectrons Tape tape_binomial tape_poisson
           tape_binomial_support tape_poisson_zero [1000; 0; 50] unit_tape 1
           Hpos).
  reflexivity.
Defined.







(** An event of one channel that is not noise and has charge 0: the
    weighted radius is NaN although the event has a channel that is not
    noise. *)
Lemma nan_with_induction_channel :
  exists out s',
    ComputeObservedCharge Tape tape_normal [induction_event]
      default_channel_threshold unit_tape = (Ok out, s')
    /\ num_channels_excluding_noise out = [1]
    /\ map PrimFloat.is_nan (weighted_radius out) = [true].
Proof.
  eexists. eexists. split; [reflexivity|]. split; reflexivity.
Qed.

(** An event of one noise channel, alone and after another event. *)
Lemma all_noise_radius_nan_witness :
  event_ok noise_event = true
  /\ non_noise_channels noise_event = []
  /\ (exists o s',
        process_event Tape tape_normal noise_event default_channel_threshold
          unit_tape = (Ok o, s')
        /\ PrimFloat.is_nan (o_weighted_radius o) = true)
  /\ exists out s',
       ComputeObservedCharge Tape tape_normal
         ([two_channel_event 16 0] ++ noise_event :: [])
         default_channel_threshold unit_tape = (Ok out, s')
       /\ nth_error (map PrimFloat.is_nan (weighted_radius out)) 1 = Some true.
Proof.
  destruct (all_noise_radius_nan Tape tape_normal) as (Hevent & Hbatch).
  split; [reflexivity|]. split; [reflexivity|]. split.
  - apply Hevent; reflexivity.
  - eexists. eexists. split; [reflexivity|].
    apply (Hbatch [two_channel_event 16 0] noise_event []
             default_channel_threshold unit_tape _ _ eq_refl).
    reflexivity.
Defined.

(** An event whose local-id array is longer than its charge array is
    processed as an event of one channel; no exception is raised. *)
Lemma long_array_silently_truncated :
  same_lengths long_id_event = false
  /\ exists out s',
       ComputeObservedCharge Tape tape_normal [long_id_event]
         default_channel_threshold unit_tape = (Ok out, s')
       /\ num_channels_in_evt out = [1]
       /\ num_channels_excluding_noise out = [1].
Proof.
  split; [reflexivity|].
  eexists. eexists. split; [reflexivity|]. split; reflexivity.
Qed.

(** A batch holding an event with one local id for two charges, and a
    batch holding an event with two local ids for one charge. *)
Lemma mismatched_lengths_witness :
  In short_id_event [noise_event; short_id_event]
  /\ (List.length (fChannelLocalId short_id_event)
      < List.length (fChannelCharge short_id_event))%nat
  /\ is_ok (fst (ComputeObservedCharge Tape tape_normal
                   [noise_event; short_id_event] default_channel_threshold
                   unit_tape)) = false
  /\ ComputeObservedCharge Tape tape_normal (map truncate [long_id_event])
       default_channel_threshold unit_tape
     = ComputeObservedCharge Tape tape_normal [long_id_event]
         default_channel_threshold unit_tape.
Proof.
  destruct (mismatched_lengths Tape tape_normal) as (Hshort & Hlong).
  assert (In short_id_event [noise_event; short_id_event]) as Hin
    by (right; left; reflexivity).
  assert (List.length (fChannelLocalId short_id_event)
          < List.length (fChannelCharge short_id_event))%nat as Hlt
    by (simpl; lia).
  split; [exact Hin|]. split; [exact Hlt|]. split.
  - apply (Hshort _ default_channel_threshold unit_tape short_id_event Hin).
    left. exact Hlt.
  - apply Hlong.
Defined.

(** The two-channel event on the generator of unit deviates: each drift
    time is jittered by 2 and the weighted drift is 102, not 100. *)
Lemma jitter_moves_weighted_drift :
  (exists out s',
     ComputeObservedCharge Tape tape_normal [two_channel_event 16 0]
       default_channel_threshold unit_tape = (Ok out, s')
     /\ weighted_drift out = [102%float])
  /\ ~ (exists out s',
          ComputeObservedCharge Tape tape_normal [two_channel_event 16 0]
            default_channel_threshold unit_tape = (Ok out, s')
          /\ weighted_drift out = [100%float]).
Proof.
  split.
  - eexists. eexists. split; reflexivity.
  - intros (out & s' & H & Hd).
    apply (f_equal (fun r => match fst r with
                             | Ok o => weighted_drift o
                             | Raise _ => []
                             end)) in H.
    cbn [fst] in H. rewrite Hd in H.
    apply (f_equal (fun d => match d with
                             | x :: _ => PrimFloat.eqb x 100
                             | [] => true
                             end)) in H.
    vm_compute in H. discriminate H.
Qed.

(** The two-channel event on the generator of zero deviates. *)
Lemma two_channel_drift_witness :
  exists out s',
    ComputeObservedCharge Tape tape_normal [two_channel_event 16 0]
      default_channel_threshold zero_tape = (Ok out, s')
    /\ weighted_drift out = [100%float].
Proof.
  destruct (two_channel_drift Tape tape_normal 16 0 default_channel_threshold
              zero_tape) as (out & s' & H & _ & Hzero).
  exists out, s'. split; [exact H|]. apply Hzero; reflexivity.
Defined.

(** The tag [0, 1] has a nonzero element, so the specification counts the
    channel as noise; the code finds no truth value and the batch ends in
    ValueError. *)
Lemma array_tag_raises :
  spec_is_noise (TagArray [0; 1]) = true
  /\ truth (TagArray [0; 1]) <> Ok (spec_is_noise (TagArray [0; 1]))
  /\ ComputeObservedCharge Tape tape_normal [array_tag_event]
       default_channel_threshold unit_tape = (Raise ValueError, unit_tape).
Proof.
  split; [reflexivity|]. split; [discriminate|reflexivity].
Qed.

(** An event tagged by the array [1], the scalar 0 and the array [0]. *)
Lemma noise_classification_witness :
  truth (TagArray [0; 1; 0]) = Raise ValueError
  /\ exists l s',
       channel_loop Tape tape_normal mixed_event unit_tape = (Ok l, s')
       /\ is_noise_channel l = [true; false; false]
       /\ charge_weights l = [7; 0]%float
       /\ drift_times l = [(200 + (0 + 2 * 1))%float; (300 + (0 + 2 * 1))%float]
       /\ List.length (x_positions l) = 2%nat.
Proof.
  destruct (noise_classification Tape tape_normal) as (_ & Harray & Hloop).
  split; [apply Harray; simpl; lia|].
  eexists. eexists. split; [reflexivity|].
  destruct (Hloop mixed_event unit_tape _ _ eq_refl)
    as (Hn & Hq & Hd & Hx & _).
  split; [exact Hn|]. split; [exact Hq|]. split; [exact Hd|exact Hx].
Defined.

(** ** Further runs on the scripted generator *)

(** A batch of three events on the generator of unit deviates. *)
Lemma output_lengths_witness :
  exists out s',
    ComputeObservedCharge Tape tape_normal
      [two_channel_event 16 0; induction_event; noise_event]
      default_channel_threshold unit_tape = (Ok out, s')
    /\ List.length (weighted_radius out) = 3%nat
    /\ List.length (evt_charge_above_threshold out) = 3%nat.
Proof.
  eexists. eexists. split; [reflexivity|].
  destruct (output_lengths Tape tape_normal
              [two_channel_event 16 0; induction_event; noise_event]
              default_channel_threshold unit_tape _ _ eq_refl)
    as (_ & _ & _ & Habove & _ & _ & _ & _ & _ & Hradius & _).
  split; [exact Hradius|exact Habove].
Defined.

Lemma channels_in_event_witness :
  exists out s',
    ComputeObservedCharge Tape tape_normal
      [two_channel_event 16 0; induction_event; noise_event]
      default_channel_threshold unit_tape = (Ok out, s')
    /\ num_channels_in_evt out = [2; 1; 1].
Proof.
  eexists. eexists. split; [reflexivity|].
  exact (channels_in_event Tape tape_normal
           [two_channel_event 16 0; induction_event; noise_event]
           default_channel_threshold unit_tape _ _ eq_refl).
Defined.

Lemma channels_in_event_split_witness :
  exists out s',
    ComputeObservedCharge Tape tape_normal
      [mixed_event; noise_event] default_channel_threshold unit_tape
    = (Ok out, s')
    /\ map2 Z.add (num_channels_excluding_noise out) [1; 1]
       = num_channels_in_evt out.
Proof.
  eexists. eexists. split; [reflexivity|].
  exact (channels_in_event_split Tape tape_normal [mixed_event; noise_event]
           default_channel_threshold unit_tape _ _ eq_refl).
Defined.

Lemma nonzero_excluding_noise_is_collection_witness :
  exists out s',
    ComputeObservedCharge Tape tape_normal
      [mixed_event; noise_event] default_channel_threshold unit_tape
    = (Ok out, s')
    /\ num_channels_collection out = [1; 0]
    /\ num_channels_nonzero_charge_excluding_noise out
       = num_channels_collection out.
Proof.
  eexists. eexists. split; [reflexivity|]. split; [reflexivity|].
  exact (nonzero_excluding_noise_is_collection Tape tape_normal
           [mixed_event; noise_event] default_channel_threshold unit_tape
           _ _ eq_refl).
Defined.

Lemma channel_counts_ordered_witness :
  exists out s',
    ComputeObservedCharge Tape tape_normal
      [mixed_event; noise_event] 1000%float unit_tape = (Ok out, s')
    /\ num_collection_below_threshold out = [1; 0]
    /\ Forall2 Z.le (num_collection_below_threshold out)
                    (num_channels_collection out)
    /\ Forall2 Z.le (num_channels_above_threshold out)
                    (num_channels_excluding_noise out).
Proof.
  eexists. eexists. split; [reflexivity|]. split; [reflexivity|].
  destruct (channel_counts_ordered Tape tape_normal
              [mixed_event; noise_event] 1000%float unit_tape _ _ eq_refl)
    as (_ & Hbelow & _ & _ & _ & Habove & _).
  split; [exact Hbelow|exact Habove].
Defined.

(** A noise event followed by an event without a channel. *)
Lemma no_channel_type_error_witness :
  exists s1,
    ComputeObservedCharge Tape tape_normal
      ([noise_event]
       ++ {| fChannelCharge := []; fChannelTime := []; fXPosition := [];
             fYPosition := []; fChannelNoiseTag := [];
             fChannelLocalId := [] |} :: [noise_event])
      default_channel_threshold unit_tape = (Raise TypeError, s1).
Proof.
  eexists.
  eapply (no_channel_type_error Tape tape_normal default_channel_threshold
            [noise_event]).
  - reflexivity.
  - simpl. lia.
  - reflexivity.
Defined.

(** The event of three channels, two of which are not noise: five
    deviates are drawn. *)
Lemma process_event_draws_witness :
  exists o s',
    process_event Tape tape_normal mixed_event default_channel_threshold
      unit_tape = (Ok o, s')
    /\ gauss_tape s' = [1; 1; 1]%float
    /\ s' = snd (normal_size Tape tape_normal 0 600 3
                   (snd (normal_size Tape tape_normal 0 2 2 unit_tape))).
Proof.
  eexists. eexists. split; [reflexivity|]. split; [reflexivity|].
  exact (process_event_draws Tape tape_normal mixed_event
           default_channel_threshold unit_tape _ _ eq_refl).
Defined.

(** A threshold of -100000 under fluctuated charges of 605. *)
Lemma threshold_below_all_charges_witness :
  exists out s',
    ComputeObservedCharge Tape tape_normal
      ([noise_event] ++ two_channel_event 16 0 :: [induction_event])
      default_channel_threshold unit_tape = (Ok out, s')
    /\ nth_error (num_channels_above_threshold out) 1 = Some 2
    /\ nth_error (num_channels_above_threshold out) 1
       = nth_error (num_channels_excluding_noise out) 1
    /\ nth_error (num_collection_below_threshold out) 1 = Some 0.
Proof.
  eexists. eexists. split; [reflexivity|]. split; [reflexivity|].
  apply (threshold_below_all_charges Tape tape_normal
           default_channel_threshold [noise_event] (two_channel_event 16 0)
           [induction_event] unit_tape _ _ eq_refl).
  repeat constructor.
Defined.

(** The event with two charges and one local id. *)
Lemma short_local_id_index_error_witness :
  exists s1,
    process_event Tape tape_normal short_id_event default_channel_threshold
      unit_tape = (Raise IndexError, s1).
Proof.
  apply (short_local_id_index_error Tape tape_normal short_id_event
           default_channel_threshold unit_tape).
  - simpl. lia.
  - reflexivity.
Defined.

(** A noise event after the two-channel event: its entry of weighted_drift
    fails the cuts of the driver. *)
Lemma all_noise_event_is_cut_witness :
  exists out s' drift,
    ComputeObservedCharge Tape tape_normal
      ([two_channel_event 16 0] ++ noise_event :: [])
      default_channel_threshold unit_tape = (Ok out, s')
    /\ nth_error (weighted_drift out) 1 = Some drift
    /\ event_cuts 20 5 500 drift 100 = false.
Proof.
  eexists. eexists.
  destruct (all_noise_event_is_cut Tape tape_normal [two_channel_event 16 0]
              noise_event [] default_channel_threshold unit_tape _ _ eq_refl
              eq_refl) as (drift & Hd & Hcut).
  exists drift. split; [reflexivity|]. split; [exact Hd|apply Hcut].
Defined.

(** The induction event after the two-channel event. *)
Lemma zero_charge_event_is_cut_witness :
  exists out s',
    ComputeObservedCharge Tape tape_normal
      ([two_channel_event 16 0] ++ induction_event :: [])
      default_channel_threshold unit_tape = (Ok out, s')
    /\ nth_error (evt_charge_including_noise out) 1 = Some 0%float
    /\ event_cuts 20 0 500 (-600) 100 = false.
Proof.
  eexists. eexists. split; [reflexivity|].
  destruct (zero_charge_event_is_cut Tape tape_normal
              [two_channel_event 16 0] induction_event []
              default_channel_threshold unit_tape _ _ eq_refl)
    as (Hq & _ & Hcut).
  - repeat constructor.
  - split; [exact Hq|apply Hcut].
Defined.


(** Three photon counts give three photoelectron counts. *)
Lemma ComputeObservedLight_length_witness :
  ComputeObservedLight Tape tape_binomial tape_poisson [1000; 0; 50] unit_tape
  = (Ok [7; 0; 12],
     {| gauss_tape := gauss_tape unit_tape; count_tape := [] |})
  /\ List.length [7; 0; 12] = List.length [1000; 0; 50].
Proof.
  split; [reflexivity|].
  apply (ComputeObservedLight_length Tape tape_binomial tape_poisson
           [1000; 0; 50] unit_tape [7; 0; 12]
           {| gauss_tape := gauss_tape unit_tape; count_tape := [] |}).
  reflexivity.
Defined.


(** An array of photon counts without a negative entry, on the scripted
    generator. *)
Lemma ComputeObservedLight_returns_iff_witness :
  Forall (fun n => 0 <= n) [1000; 0; 50]
  /\ is_ok (fst (ComputeObservedLight Tape tape_binomial tape_poisson
                   [1000; 0; 50] unit_tape)) = true.
Proof.
  assert (Forall (fun n => 0 <= n) [1000; 0; 50]) as Hpos
    by (repeat constructor; lia).
  split; [exact Hpos|].
  exact (proj2 (ComputeObservedLight_returns_iff Tape tape_binomial
                  tape_poisson tape_binomial_support [1000; 0; 50] unit_tape)
           Hpos).
Defined.
